(** * promptify: the icon generator [create_icon.py]

    A shallow embedding of the script that draws the application icons and
    the menu-bar icons, and the properties of it that the specification
    states.

    The script is Python on top of two libraries, [math] and Pillow
    ([PIL.Image], [PIL.ImageDraw]).  The embedding has four layers:

    - [Py]: the Python numbers the script computes with: unbounded integers,
      binary64 floats (Rocq's primitive floats, which are IEEE 754 binary64
      with round-to-nearest-even, as CPython's [float]), the mixed-mode
      arithmetic between them and the exceptions it raises;
    - [Pil]: images as the sequence of drawing calls made on them, with the
      pixel they determine under a rasteriser;
    - the two renderers, [create_icon] and [create_menu_bar_icon];
    - the driver: the module-level statements, run on a model of the file
      system and of standard output. *)

From Stdlib Require Import Ascii String DecimalString ZArith List Bool Floats Lia.
From stdpp Require Import base option list gmap strings.

Set Warnings "-inexact-float".
Local Open Scope Z_scope.

(** ** Exceptions and the error monad *)

Inductive exn : Set :=
| ZeroDivisionError
| OverflowError
| ValueError
| TypeError
| FileExistsError
| FileNotFoundError
| NotADirectoryError
| IsADirectoryError.

Inductive result (A : Type) : Type :=
| Ok (a : A)
| Raise (e : exn).
Arguments Ok {A} a.
Arguments Raise {A} e.

Definition bind {A B} (m : result A) (f : A -> result B) : result B :=
  match m with
  | Ok a => f a
  | Raise e => Raise e
  end.

Notation "x <- m ;; k" := (bind m (fun x => k))
  (at level 100, m at next level, right associativity).

#[global] Instance result_fmap : FMap result := fun A B f m =>
  match m with
  | Ok a => Ok (f a)
  | Raise e => Raise e
  end.

Definition is_ok {A} (m : result A) : bool :=
  match m with Ok _ => true | Raise _ => false end.

(** [for x in xs: body], the body updating one loop-carried value. *)
Fixpoint for_ {A S} (xs : list A) (body : A -> S -> result S) (s : S) : result S :=
  match xs with
  | [] => Ok s
  | x :: xs' => s' <- body x s;; for_ xs' body s'
  end.

(** [range(n)] and [range(a, b)]. *)
Definition range2 (a b : Z) : list Z := seqZ a (b - a).
Definition range (n : Z) : list Z := range2 0 n.

(** ** Python numbers *)

Module Py.

(** *** binary64 floats: the parts that are not one IEEE operation *)

Definition of_sf (x : spec_float) : float := SF2Prim x.

(** The dyadic number [m * 2^e], rounded to nearest-even. *)
Definition round_dyadic (m e : Z) : spec_float := binary_normalize prec emax m e false.

(** [float(z)] for an [int]: correctly rounded (half to even);
    [OverflowError: int too large to convert to float]. *)
Definition float_of_int (z : Z) : result float :=
  match round_dyadic z 0 with
  | S754_infinity _ => Raise OverflowError
  | x => Ok (of_sf x)
  end.

(** [a / b] on two [int]s ([long_true_divide]): division by zero raises, a
    zero numerator gives a zero, otherwise the quotient of the two integers
    rounded once. *)
Definition int_true_divide (a b : Z) : result float :=
  if b =? 0 then Raise ZeroDivisionError
  else if a =? 0 then Ok (if b <? 0 then neg_zero else zero)
  else
    let s := xorb (a <? 0) (b <? 0) in
    let '(q, e, l) := SFdiv_core_binary prec emax (Z.abs a) 0 (Z.abs b) 0 in
    match binary_round_aux prec emax s q e l with
    | S754_infinity _ => Raise OverflowError
    | x => Ok (of_sf x)
    end.

(** [int(x)] on a float: truncation toward zero; [nan] and the infinities
    raise. *)
Definition trunc (x : float) : result Z :=
  match Prim2SF x with
  | S754_nan => Raise ValueError
  | S754_infinity _ => Raise OverflowError
  | S754_zero _ => Ok 0
  | S754_finite s m e =>
      let v := if 0 <=? e then Z.pos m * 2 ^ e else Z.pos m / 2 ^ (- e) in
      Ok (if s then - v else v)
  end.

(** The integers [floor x] and [ceil x] of a finite float ([0] otherwise). *)
Definition floorZ (x : float) : Z :=
  match Prim2SF x with
  | S754_finite s m e =>
      if 0 <=? e then (if s then - (Z.pos m * 2 ^ e) else Z.pos m * 2 ^ e)
      else if s then - ((Z.pos m + 2 ^ (- e) - 1) / 2 ^ (- e))
      else Z.pos m / 2 ^ (- e)
  | _ => 0
  end.

Definition ceilZ (x : float) : Z := - floorZ (- x)%float.

(** C's [floor] on doubles. *)
Definition floor (x : float) : float :=
  match Prim2SF x with
  | S754_finite s _ _ =>
      let n := floorZ x in
      if n =? 0 then (if s then neg_zero else zero) else of_sf (round_dyadic n 0)
  | _ => x
  end.

(** C's [fmod]: the remainder of the truncated quotient, exact, with the
    sign of the dividend. *)
Definition fmod (x y : float) : float :=
  match Prim2SF x, Prim2SF y with
  | S754_nan, _ | _, S754_nan => nan
  | S754_infinity _, _ => nan
  | _, S754_zero _ => nan
  | _, S754_infinity _ => x
  | S754_zero _, _ => x
  | S754_finite sx mx ex, S754_finite _ my ey =>
      let e0 := Z.min ex ey in
      let r := (Z.pos mx * 2 ^ (ex - e0)) mod (Z.pos my * 2 ^ (ey - e0)) in
      if r =? 0 then (if sx then neg_zero else zero)
      else of_sf (round_dyadic (if sx then - r else r) e0)
  end.

Definition is_true (x : float) : bool := negb (x =? 0)%float.

(** [x // y] on floats ([float_floor_div], through [_float_div_mod]). *)
Definition float_floor_div (vx wx : float) : result float :=
  if (wx =? 0)%float then Raise ZeroDivisionError
  else
    let mod_ := fmod vx wx in
    let div := ((vx - mod_) / wx)%float in
    let div :=
      if is_true mod_ && negb (eqb (wx <? 0)%float (mod_ <? 0)%float)
      then (div - 1)%float else div in
    if is_true div then
      let floordiv := floor div in
      Ok (if (0.5 <? div - floordiv)%float then (floordiv + 1)%float else floordiv)
    else Ok (if get_sign (vx / wx)%float then neg_zero else zero).

(** [x / y] on floats. *)
Definition float_true_div (x y : float) : result float :=
  if (y =? 0)%float then Raise ZeroDivisionError else Ok (x / y)%float.

(** *** [math.pi] and [math.sin]

    [math.sin] is the C library's [sin], whose last bit is not fixed by any
    standard.  The model is the sine rounded to nearest: the Taylor series
    summed in fixed point with [sin_bits] fractional bits, which on the
    arguments the script uses (the fourteen products [i / 7.0 * pi] and
    [i / 5.0 * pi], all in [[0, pi]]) leaves an error far below half a unit
    in the last place.  Arguments of magnitude below [2^-26] are their own
    sine in binary64. *)

Definition pi : float := 0x1.921fb54442d18p+1%float.

Definition sin_bits : Z := 128.
Definition sin_terms : nat := 32.

(** [sum_{k} (-1)^k x^(2k+1) / (2k+1)!] on [X = x * 2^sin_bits]: [t] is the
    current term, [k2] is [2k]. *)
Fixpoint sin_series (n : nat) (X2 t k2 acc : Z) : Z :=
  match n with
  | O => acc
  | S n' =>
      let t' := - Z.shiftr (t * X2) sin_bits / ((k2 + 2) * (k2 + 3)) in
      sin_series n' X2 t' (k2 + 2) (acc + t)
  end.

Definition sin (x : float) : result float :=
  match Prim2SF x with
  | S754_nan => Ok nan
  | S754_infinity _ => Raise ValueError
  | S754_zero _ => Ok x
  | S754_finite s m e =>
      if Z.pos (digits2_pos m) + e <? -26 then Ok x
      else
        let X := Z.shiftl (Z.pos m) (e + sin_bits) in
        let X := if s then - X else X in
        let X2 := Z.shiftr (X * X) sin_bits in
        Ok (of_sf (round_dyadic (sin_series sin_terms X2 X 0 0) (- sin_bits)))
  end.

(** *** The numeric tower: [int] and [float] values, mixed arithmetic *)

Inductive num : Set :=
| Int (z : Z)
| Flt (f : float).

Definition to_float (a : num) : result float :=
  match a with
  | Int z => float_of_int z
  | Flt f => Ok f
  end.

Definition arith (fz : Z -> Z -> Z) (ff : float -> float -> float) (a b : num) : result num :=
  match a, b with
  | Int x, Int y => Ok (Int (fz x y))
  | _, _ => x <- to_float a;; y <- to_float b;; Ok (Flt (ff x y))
  end.

Definition add : num -> num -> result num := arith Z.add PrimFloat.add.
Definition sub : num -> num -> result num := arith Z.sub PrimFloat.sub.
Definition mul : num -> num -> result num := arith Z.mul PrimFloat.mul.

(** [a // b]: on two [int]s the floor of the quotient. *)
Definition floordiv (a b : num) : result num :=
  match a, b with
  | Int x, Int y => if y =? 0 then Raise ZeroDivisionError else Ok (Int (x / y))
  | _, _ => x <- to_float a;; y <- to_float b;; Flt <$> float_floor_div x y
  end.

(** [a / b]. *)
Definition truediv (a b : num) : result num :=
  match a, b with
  | Int x, Int y => Flt <$> int_true_divide x y
  | _, _ => x <- to_float a;; y <- to_float b;; Flt <$> float_true_div x y
  end.

(** [int(a)]. *)
Definition int (a : num) : result num :=
  match a with
  | Int z => Ok (Int z)
  | Flt f => Int <$> trunc f
  end.

(** [math.sin(a)]. *)
Definition math_sin (a : num) : result num :=
  x <- to_float a;; Flt <$> sin x.

(** [a < b], exact also between an [int] and a [float]. *)
Definition dyadic_ltb (m1 e1 m2 e2 : Z) : bool :=
  let e0 := Z.min e1 e2 in m1 * 2 ^ (e1 - e0) <? m2 * 2 ^ (e2 - e0).

Definition sf_dyadic (x : spec_float) : option (Z * Z) :=
  match x with
  | S754_zero _ => Some (0, 0)
  | S754_finite s m e => Some (if s then Z.neg m else Z.pos m, e)
  | _ => None
  end.

Definition ltb (a b : num) : bool :=
  match a, b with
  | Int x, Int y => x <? y
  | Flt x, Flt y => (x <? y)%float
  | Int x, Flt y =>
      match Prim2SF y with
      | S754_infinity s => negb s
      | S754_nan => false
      | sy => match sf_dyadic sy with Some (m, e) => dyadic_ltb x 0 m e | None => false end
      end
  | Flt x, Int y =>
      match Prim2SF x with
      | S754_infinity s => s
      | S754_nan => false
      | sx => match sf_dyadic sx with Some (m, e) => dyadic_ltb m e y 0 | None => false end
      end
  end.

(** [max(a, b)]: the first argument unless the second is greater. *)
Definition max (a b : num) : num := if ltb a b then b else a.

(** The integer below and above a coordinate. *)
Definition num_floor (a : num) : Z :=
  match a with Int z => z | Flt f => floorZ f end.
Definition num_ceil (a : num) : Z :=
  match a with Int z => z | Flt f => ceilZ f end.

End Py.


Coercion Py.Int : Z >-> Py.num.
Coercion Py.Flt : float >-> Py.num.

(** A number is an expression that evaluates to itself. *)
Definition pure_num (a : Py.num) : result Py.num := Ok a.
Coercion pure_num : Py.num >-> result.

(** Operators on expressions: the operands are evaluated left to right, and
    the first exception is the expression's. *)
Definition lift1 {B} (f : Py.num -> result B) (a : result Py.num) : result B :=
  x <- a;; f x.
Definition lift2 {B} (f : Py.num -> Py.num -> result B) (a b : result Py.num) : result B :=
  x <- a;; y <- b;; f x y.

Declare Scope py_scope.
Delimit Scope py_scope with py.
Notation "a + b" := (lift2 Py.add a b) : py_scope.
Notation "a - b" := (lift2 Py.sub a b) : py_scope.
Notation "a * b" := (lift2 Py.mul a b) : py_scope.
Notation "a / b" := (lift2 Py.truediv a b) : py_scope.
Notation "a // b" := (lift2 Py.floordiv a b) (at level 40, left associativity) : py_scope.

Definition int : result Py.num -> result Py.num := lift1 Py.int.
Definition math_sin : result Py.num -> result Py.num := lift1 Py.math_sin.
Definition math_pi : Py.num := Py.Flt Py.pi.
Definition max_ : result Py.num -> result Py.num -> result Py.num :=
  lift2 (fun a b => Ok (Py.max a b)).

(** [enumerate(xs)]. *)
Definition enumerate {A} (xs : list A) : list (Z * A) :=
  imap (fun i x => (Z.of_nat i, x)) xs.

(** ** Pillow: images as display lists *)

Module Pil.

Definition point : Set := Py.num * Py.num.
Definition box : Set := Py.num * Py.num * Py.num * Py.num.
Definition rgba : Set := Z * Z * Z * Z.
Definition color : Set := Py.num * Py.num * Py.num * Py.num.

(** The ink of a colour: Pillow reads the four bands as C integers
    ([TypeError] on a float). *)
Definition band (a : Py.num) : result Z :=
  match a with
  | Py.Int z => Ok z
  | Py.Flt _ => Raise TypeError
  end.

Definition getink (c : color) : result rgba :=
  let '(r, g, b, a) := c in
  r <- band r;; g <- band g;; b <- band b;; a <- band a;; Ok (r, g, b, a).

(** What a drawing call paints: [ImageDraw.line], [polygon], [ellipse] and
    [rounded_rectangle], with the coordinates as they were passed. *)
Inductive shape : Set :=
| Line (xy : list point) (width : Py.num)
| Polygon (xy : list point)
| Ellipse (xy : box)
| RoundedRectangle (xy : box) (radius : Py.num).

(** An image of mode ['L']: its size, the value it was created with, and
    the filled shapes drawn on it since, oldest first. *)
Record LImage : Set := mkL {
  l_size : Z * Z;
  l_background : Z;
  l_ops : list (shape * Z)
}.

(** An image of mode ['RGBA']: a drawing call paints a shape in one ink,
    [putalpha] replaces the alpha band by a mask. *)
Inductive op : Set :=
| Draw (s : shape) (ink : rgba)
| PutAlpha (mask : LImage).

Record Image : Set := mkImage {
  size : Z * Z;
  background : rgba;
  ops : list op
}.

(** [Image.new(mode, size, color)]: Pillow's size check refuses a negative
    width or height ([ValueError: Width and height must be >= 0]). *)
Definition check_size (sz : Z * Z) : result unit :=
  if (sz.1 <? 0) || (sz.2 <? 0) then Raise ValueError else Ok tt.

Definition new_RGBA (sz : Z * Z) (c : rgba) : result Image :=
  _ <- check_size sz;; Ok (mkImage sz c []).

Definition new_L (sz : Z * Z) (c : Z) : result LImage :=
  _ <- check_size sz;; Ok (mkL sz c []).

(** [ImageDraw.Draw(img)] is a handle on [img]: what is drawn through it is
    drawn on the image, so the drawing calls take the image and return it
    with one more entry. *)
Definition draw (img : Image) (s : shape) (ink : rgba) : Image :=
  mkImage (size img) (background img) (ops img ++ [Draw s ink]).

Definition line (img : Image) (xy : list point) (fill : color) (width : Py.num)
  : result Image :=
  ink <- getink fill;; Ok (draw img (Line xy width) ink).

Definition polygon (img : Image) (xy : list point) (fill : color) : result Image :=
  ink <- getink fill;; Ok (draw img (Polygon xy) ink).

(** [ellipse] and [rounded_rectangle] refuse a box whose second corner is
    before the first ([ValueError: x1 must be greater than or equal to x0]). *)
Definition check_box (xy : box) : result unit :=
  let '(x0, y0, x1, y1) := xy in
  if Py.ltb x1 x0 || Py.ltb y1 y0 then Raise ValueError else Ok tt.

Definition ellipse (img : Image) (xy : box) (fill : color) : result Image :=
  _ <- check_box xy;; ink <- getink fill;; Ok (draw img (Ellipse xy) ink).

Definition rounded_rectangle (m : LImage) (xy : box) (radius : Py.num) (fill : Z)
  : result LImage :=
  _ <- check_box xy;;
  Ok (mkL (l_size m) (l_background m) (l_ops m ++ [(RoundedRectangle xy radius, fill)])).

(** [img.putalpha(mask)]: the mask must have the image's size. *)
Definition putalpha (img : Image) (mask : LImage) : result Image :=
  if bool_decide (size img = l_size mask)
  then Ok (mkImage (size img) (background img) (ops img ++ [PutAlpha mask]))
  else Raise ValueError.

(** *** Pixels

    Which pixels a filled shape covers is the rasteriser's business.  It is
    a parameter, constrained by three properties of Pillow's: a shape stays
    inside the box of its coordinates (grown by half the width, for a line);
    a rounded rectangle with room between its corners covers the two bands
    between them; an ellipse covers the centre of its box. *)

(** [c] lies between the least and the greatest of [cs], [m] pixels apart at
    most. *)
Definition within (cs : list Py.num) (m c : Z) : bool :=
  existsb (fun a => Py.num_floor a - m <=? c) cs
  && existsb (fun a => c <=? Py.num_ceil a + m) cs.

Definition box_xs (b : box) : list Py.num := let '(x0, _, x1, _) := b in [x0; x1].
Definition box_ys (b : box) : list Py.num := let '(_, y0, _, y1) := b in [y0; y1].

(** The abscissas and the ordinates of a shape's coordinates, and how far
    beyond them it may paint. *)
Definition extent (s : shape) : list Py.num * list Py.num * Z :=
  match s with
  | Line xy w => (xy.*1, xy.*2, (Py.num_floor w + 1) / 2)
  | Polygon xy => (xy.*1, xy.*2, 0)
  | Ellipse b | RoundedRectangle b _ => (box_xs b, box_ys b, 0)
  end.

Definition in_bbox (s : shape) (x y : Z) : bool :=
  let '(xs, ys, m) := extent s in within xs m x && within ys m y.

Class Rasteriser : Type := {
  covers : shape -> Z -> Z -> bool;
  covers_in_bbox : forall s x y, covers s x y = true -> in_bbox s x y = true;
  rounded_rectangle_bands : forall (x0 y0 x1 y1 r x y : Z),
    0 <= r -> 2 * r + 2 < x1 - x0 -> 2 * r + 2 < y1 - y0 ->
    x0 <= x <= x1 -> y0 <= y <= y1 ->
    x0 + r < x < x1 - r \/ y0 + r < y < y1 - r ->
    covers (RoundedRectangle (Py.Int x0, Py.Int y0, Py.Int x1, Py.Int y1) (Py.Int r)) x y = true;
  ellipse_centre : forall (cx cy d : Z),
    0 < d ->
    covers (Ellipse (Py.Int (cx - d), Py.Int (cy - d), Py.Int (cx + d), Py.Int (cy + d))) cx cy = true
}.

Section Pixels.
Context {R : Rasteriser}.

Definition l_getpixel (m : LImage) (x y : Z) : Z :=
  fold_left (fun v '(s, c) => if covers s x y then c else v) (l_ops m) (l_background m).

Definition set_alpha (p : rgba) (a : Z) : rgba :=
  let '(r, g, b, _) := p in (r, g, b, a).

Definition apply_op (x y : Z) (p : rgba) (o : op) : rgba :=
  match o with
  | Draw s ink => if covers s x y then ink else p
  | PutAlpha m => set_alpha p (l_getpixel m x y)
  end.

Definition in_image (sz : Z * Z) (x y : Z) : bool :=
  (0 <=? x) && (x <? sz.1) && (0 <=? y) && (y <? sz.2).

(** [img.getpixel((x, y))]: no pixel outside the image. *)
Definition getpixel (img : Image) (x y : Z) : option rgba :=
  if in_image (size img) x y
  then Some (fold_left (apply_op x y) (ops img) (background img))
  else None.

Definition alpha (p : rgba) : Z := p.2.
End Pixels.

End Pil.

(** ** The renderers

    Statement by statement as in the script.  A loop body is a function of
    the loop variable and of what the loop updates, given the local
    variables it reads. *)

Section Renderers.
Local Open Scope py_scope.

Definition white : Pil.color := (Py.Int 255, Py.Int 255, Py.Int 255, Py.Int 255).

(** [create_icon], the body of [for y in range(size)]. *)
Definition gradient_row (size y : Z) (img : Pil.Image) : result Pil.Image :=
  ratio <- y / size;;
  (* Purple gradient: darker purple to lighter purple *)
  r <- int (76 * (1 - ratio) + 110 * ratio);;
  g <- int (84 * (1 - ratio) + 115 * ratio);;
  b <- int (200 * (1 - ratio) + 230 * ratio);;
  let color := (r, g, b, Py.Int 255) in
  Pil.line img [(Py.Int 0, Py.Int y); (Py.Int size, Py.Int y)] color 0.

(** The body of the first [for i in range(8)]: a point of the left side. *)
Definition vane_left (feather_x feather_y feather_height feather_width : Py.num)
    (i : Z) (vane_points_left : list Pil.point) : result (list Pil.point) :=
  progress <- i / 7.0%float;;
  offset_y <- feather_y - feather_height // 2 + (feather_height * progress);;
  curve_offset <- int (feather_width * math_sin (progress * math_pi) * 0.7%float);;
  point_x <- feather_x - curve_offset;;
  let point_y := offset_y in
  Ok (vane_points_left ++ [(point_x, point_y)]).

(** The body of the second [for i in range(8)]: a point of the right side. *)
Definition vane_right (feather_x feather_y feather_height feather_width : Py.num)
    (i : Z) (vane_points_right : list Pil.point) : result (list Pil.point) :=
  progress <- i / 7.0%float;;
  offset_y <- feather_y - feather_height // 2 + (feather_height * progress);;
  curve_offset <- int (feather_width * math_sin (progress * math_pi) * 0.4%float);;
  point_x <- feather_x + curve_offset + feather_height // 12;;
  let point_y := offset_y in
  Ok (vane_points_right ++ [(point_x, point_y)]).

Definition barb_color : Pil.color := (Py.Int 76, Py.Int 84, Py.Int 200, Py.Int 180).

(** The body of [for i in range(1, 7)]: a pair of barbs. *)
Definition barb_pair (size : Z) (feather_x feather_y feather_height feather_width : Py.num)
    (i : Z) (img : Pil.Image) : result Pil.Image :=
  progress <- i / 7.0%float;;
  detail_y <- feather_y - feather_height // 2 + (feather_height * progress * 0.8%float);;
  (* Left side barbs *)
  let left_start_x := feather_x in
  left_end_x <- feather_x - int (feather_width * math_sin (progress * math_pi) * 0.5%float);;
  width <- max_ 1 (size // 80);;
  img <- Pil.line img [(left_start_x, detail_y); (left_end_x, detail_y)] barb_color width;;
  (* Right side barbs (shorter) *)
  right_start_x <- feather_x + feather_height // 24;;
  right_end_x <- feather_x + int (feather_width * math_sin (progress * math_pi) * 0.3%float)
                 + feather_height // 12;;
  width <- max_ 1 (size // 80);;
  Pil.line img [(right_start_x, detail_y); (right_end_x, detail_y)] barb_color width.

(** The body of [for i, (dot_x, dot_y) in enumerate(dot_positions)]. *)
Definition dot (size : Z) (idot : Z * Pil.point) (img : Pil.Image) : result Pil.Image :=
  let '(i, (dot_x, dot_y)) := idot in
  (* Different sizes for visual hierarchy *)
  dot_size <- (if i =? 0 then max_ 2 (size // 25)       (* Largest dot *)
               else if i =? 1 then max_ 1 (size // 35)  (* Medium dot *)
               else max_ 1 (size // 45));;               (* Smallest dot *)
  x0 <- dot_x - dot_size;; y0 <- dot_y - dot_size;;
  x1 <- dot_x + dot_size;; y1 <- dot_y + dot_size;;
  Pil.ellipse img (x0, y0, x1, y1) (Py.Int 255, Py.Int 255, Py.Int 255, Py.Int 220).

Definition create_icon (size : Z) : result Pil.Image :=
  (* Create a new image with transparent background *)
  img <- Pil.new_RGBA (size, size) (0, 0, 0, 0)%Z;;
  (* Create purple gradient background *)
  img <- for_ (range size) (gradient_row size) img;;
  (* Add rounded rectangle mask *)
  mask <- Pil.new_L (size, size) 0;;
  corner_radius <- size // 8;;
  mask <- Pil.rounded_rectangle mask (Py.Int 0, Py.Int 0, Py.Int size, Py.Int size)
            corner_radius 255;;
  (* Apply mask *)
  img <- Pil.putalpha img mask;;
  (* Draw feather (quill pen) - main element *)
  center_x <- size // 2;;
  center_y <- size // 2;;
  feather_height <- size // 1.8%float;;
  feather_width <- feather_height // 3;;
  (* Feather positioning *)
  feather_x <- center_x - size // 8;;
  let feather_y := center_y in
  (* Draw feather shaft (main stem) *)
  let shaft_start_x := feather_x in
  shaft_start_y <- feather_y + feather_height // 2;;
  shaft_end_x <- feather_x + feather_height // 8;;
  shaft_end_y <- feather_y - feather_height // 2;;
  shaft_width <- max_ 2 (size // 40);;
  img <- Pil.line img [(shaft_start_x, shaft_start_y); (shaft_end_x, shaft_end_y)]
           white shaft_width;;
  (* Draw feather vane - left side, right side *)
  vane_points_left <-
    for_ (range 8) (vane_left feather_x feather_y feather_height feather_width) [];;
  vane_points_right <-
    for_ (range 8) (vane_right feather_x feather_y feather_height feather_width) [];;
  (* Create complete feather outline *)
  let feather_points := vane_points_left ++ rev vane_points_right in
  (* Draw filled feather *)
  img <- Pil.polygon img feather_points white;;
  (* Add feather details (barbs) *)
  img <- for_ (range2 1 7)
          (barb_pair size feather_x feather_y feather_height feather_width) img;;
  (* Draw small decorative dots on the right side *)
  d0x <- center_x + size // 4;;  d0y <- center_y - size // 12;;
  d1x <- center_x + size // 6;;  d1y <- center_y + size // 8;;
  d2x <- center_x + size // 3;;  d2y <- center_y + size // 16;;
  let dot_positions := [(d0x, d0y); (d1x, d1y); (d2x, d2y)] in
  img <- for_ (enumerate dot_positions) (dot size) img;;
  (* Add small triangle (cursor/arrow) *)
  triangle_x <- center_x + size // 5;;
  triangle_y <- center_y - size // 8;;
  triangle_size <- max_ 3 (size // 30);;
  t0y <- triangle_y - triangle_size;;
  t1x <- triangle_x - triangle_size // 2;;  t1y <- triangle_y + triangle_size // 2;;
  t2x <- triangle_x + triangle_size // 2;;  t2y <- triangle_y + triangle_size // 2;;
  let triangle_points := [(triangle_x, t0y); (t1x, t1y); (t2x, t2y)] in
  img <- Pil.polygon img triangle_points white;;
  Ok img.

(** [create_menu_bar_icon], the body of the first [for i in range(6)]. *)
Definition menu_vane_left (feather_x feather_y feather_height feather_width : Py.num)
    (i : Z) (vane_points : list Pil.point) : result (list Pil.point) :=
  progress <- i / 5.0%float;;
  offset_y <- feather_y - feather_height // 2 + (feather_height * progress);;
  (* Left side *)
  left_x <- feather_x - int (feather_width * math_sin (progress * math_pi) * 0.6%float);;
  Ok (vane_points ++ [(left_x, offset_y)]).

(** The body of the second [for i in range(6)]. *)
Definition menu_vane_right (feather_x feather_y feather_height feather_width : Py.num)
    (i : Z) (vane_points : list Pil.point) : result (list Pil.point) :=
  progress <- (5 - i) / 5.0%float;;
  offset_y <- feather_y - feather_height // 2 + (feather_height * progress);;
  right_x <- feather_x + int (feather_width * math_sin (progress * math_pi) * 0.3%float)
             + feather_height // 12;;
  Ok (vane_points ++ [(right_x, offset_y)]).

(** The body of [for dot_x, dot_y in dot_positions]. *)
Definition menu_dot (size : Z) (xy : Pil.point) (img : Pil.Image) : result Pil.Image :=
  let '(dot_x, dot_y) := xy in
  dot_size <- max_ 1 (size // 16);;
  x0 <- dot_x - dot_size;; y0 <- dot_y - dot_size;;
  x1 <- dot_x + dot_size;; y1 <- dot_y + dot_size;;
  Pil.ellipse img (x0, y0, x1, y1) white.

(** Create a simplified feather for menu bar. *)
Definition create_menu_bar_icon (size : Z) : result Pil.Image :=
  img <- Pil.new_RGBA (size, size) (0, 0, 0, 0)%Z;;
  center_x <- size // 2;;
  center_y <- size // 2;;
  feather_height <- size // 1.6%float;;
  feather_width <- feather_height // 3;;
  (* Simple feather outline for menu bar *)
  feather_x <- center_x - size // 8;;
  let feather_y := center_y in
  (* Feather shaft *)
  let shaft_start_x := feather_x in
  shaft_start_y <- feather_y + feather_height // 2;;
  shaft_end_x <- feather_x + feather_height // 8;;
  shaft_end_y <- feather_y - feather_height // 2;;
  shaft_width <- max_ 1 (size // 12);;
  img <- Pil.line img [(shaft_start_x, shaft_start_y); (shaft_end_x, shaft_end_y)]
           white shaft_width;;
  (* Simplified feather vane *)
  vane_points <-
    for_ (range 6) (menu_vane_left feather_x feather_y feather_height feather_width) [];;
  (* Right side *)
  vane_points <-
    for_ (range 6) (menu_vane_right feather_x feather_y feather_height feather_width)
      vane_points;;
  img <- Pil.polygon img vane_points white;;
  (* Small dots for menu bar *)
  d0x <- center_x + size // 4;;  d0y <- center_y - size // 12;;
  d1x <- center_x + size // 5;;  d1y <- center_y + size // 8;;
  let dot_positions := [(d0x, d0y); (d1x, d1y)] in
  img <- for_ dot_positions (menu_dot size) img;;
  Ok img.

End Renderers.

(** ** The file system and standard output *)

(** What a path names: a directory, or a file holding a saved image.  The
    PNG encoder writes no time stamp and nothing else that is not in the
    image, so the bytes of a file are a function of the image it holds. *)
Inductive node : Set :=
| Dir
| File (data : Pil.Image).

Record world : Type := mkWorld {
  fs : gmap string node;
  stdout : list string
}.

Definition slash : Ascii.ascii := "/"%char.

(** [os.path.dirname(p)]: what precedes the last [/]. *)
Fixpoint after_slash (l : list Ascii.ascii) : list Ascii.ascii :=
  match l with
  | [] => []
  | c :: l' => if Ascii.eqb c slash then l' else after_slash l'
  end.

Definition dirname (p : string) : string :=
  String.string_of_list_ascii (rev (after_slash (rev (String.list_ascii_of_string p)))).

(** [p] and the directories above it, outermost first. *)
Fixpoint ancestors_ (fuel : nat) (p : string) (acc : list string) : list string :=
  match fuel with
  | O => acc
  | S fuel' => if String.eqb p "" then acc else ancestors_ fuel' (dirname p) (p :: acc)
  end.

Definition ancestors (p : string) : list string := ancestors_ (S (String.length p)) p [].

(** [str(n)] and [print(line)]. *)
Definition str (n : Z) : string := DecimalString.NilZero.string_of_int (Z.to_int n).

Definition print (line : string) (w : world) : world :=
  mkWorld (fs w) (stdout w ++ [line]).

(** One step of [os.makedirs(path, exist_ok=True)]: a directory that exists
    is kept, a file in its place is an error. *)
Definition mkdir_exist_ok (leaf a : string) (w : world) : result world :=
  match fs w !! a with
  | Some Dir => Ok w
  | Some (File _) => Raise (if String.eqb a leaf then FileExistsError else NotADirectoryError)
  | None => Ok (mkWorld (<[a := Dir]> (fs w)) (stdout w))
  end.

Definition makedirs (path : string) (w : world) : result world :=
  for_ (ancestors path) (mkdir_exist_ok path) w.

(** [img.save(filename)]: the file is opened for writing, which needs its
    directory and refuses a directory in its place, and then holds the
    image. *)
Definition save (img : Pil.Image) (filename : string) (w : world) : result world :=
  match fs w !! dirname filename with
  | None => Raise FileNotFoundError
  | Some (File _) => Raise NotADirectoryError
  | Some Dir =>
      match fs w !! filename with
      | Some Dir => Raise IsADirectoryError
      | _ => Ok (mkWorld (<[filename := File img]> (fs w)) (stdout w))
      end
  end.

(** [os.listdir(d)]: the names directly under [d], here with their path. *)
Definition entries (d : string) (m : gmap string node) : gset string :=
  filter (fun p => dirname p = d) (dom m).

Definition listdir (d : string) (w : world) : result (list string) :=
  match fs w !! d with
  | Some Dir => Ok (elements (entries d (fs w)))
  | Some (File _) => Raise NotADirectoryError
  | None => Raise FileNotFoundError
  end.

(** ** The driver: the statements of the module *)

Local Open Scope string_scope.

(** Create all required icon sizes *)
Definition sizes : list Z := [16; 32; 64; 128; 256; 512; 1024]%Z.
Definition icon_dir : string := "Promptify/Assets.xcassets/AppIcon.appiconset".

(** The body of [for size in sizes]. *)
Definition app_icon (size : Z) (w : world) : result world :=
  let w := print ("Creating icon " ++ str size ++ "x" ++ str size ++ "...") w in
  icon <- create_icon size;;
  (* Save 1x versions *)
  let filename := icon_dir ++ "/icon_" ++ str size ++ "x" ++ str size ++ ".png" in
  w <- save icon filename w;;
  let w := print ("Saved: " ++ filename) w in
  (* Save 2x versions for smaller sizes *)
  if (size <=? 512)%Z then
    let w := print ("Creating icon " ++ str size ++ "x" ++ str size ++ "@2x...") w in
    icon_2x <- create_icon (size * 2);;
    let filename_2x := icon_dir ++ "/icon_" ++ str size ++ "x" ++ str size ++ "@2x.png" in
    w <- save icon_2x filename_2x w;;
    Ok (print ("Saved: " ++ filename_2x) w)
  else Ok w.

(** Update menu bar icons *)
Definition menu_icon_dir : string := "Promptify/Assets.xcassets".
Definition menu_iconset_dir : string := menu_icon_dir ++ "/MenuBarIcon.imageset".

Definition main (w : world) : result world :=
  let w := print ("Creating icons in: " ++ icon_dir) w in
  (* Ensure directory exists *)
  w <- makedirs icon_dir w;;
  (* Create standard app icons *)
  w <- for_ sizes app_icon w;;
  let w := print ("Creating menu bar icons in: " ++ menu_iconset_dir) w in
  w <- makedirs menu_iconset_dir w;;
  (* Create menu bar icon sizes *)
  menu_icon <- create_menu_bar_icon 16;;
  w <- save menu_icon (menu_iconset_dir ++ "/menubar_16.png") w;;
  menu_icon_2x <- create_menu_bar_icon 32;;
  w <- save menu_icon_2x (menu_iconset_dir ++ "/menubar_16@2x.png") w;;
  menu_icon_3x <- create_menu_bar_icon 48;;
  w <- save menu_icon_3x (menu_iconset_dir ++ "/menubar_16@3x.png") w;;
  let w := print "Beautiful feather-based icons created successfully!" w in
  let w := print (String (Ascii.ascii_of_nat 10) "Files created:") w in
  app_files <- listdir icon_dir w;;
  let w := print ("- App icons: " ++ str (Z.of_nat (length app_files)) ++ " files") w in
  menu_files <- listdir menu_iconset_dir w;;
  let w := print ("- Menu bar icons: " ++ str (Z.of_nat (length menu_files)) ++ " files") w in
  Ok w.

Local Close Scope string_scope.

Definition empty_world : world := mkWorld ∅ [].

(** ** A rasteriser

    Filled shapes as plane geometry on pixel centres, the coordinates cut to
    integers: a line is the band of its width around the segment, a polygon
    its interior by the even-odd rule with its edges, an ellipse the disc
    of its box, a rounded rectangle the box less what lies outside the
    corner circles.  It is one instance of [Pil.Rasteriser]; nothing below
    depends on its pixels beyond the three properties of the class. *)

Module Geometric.

Definition px (a : Py.num) : Z := Py.num_floor a.
Definition pxs (xy : list Pil.point) : list (Z * Z) := map (fun p => (px p.1, px p.2)) xy.
Definition sq (z : Z) : Z := z * z.

Definition on_line (xy : list Pil.point) (w : Py.num) (x y : Z) : bool :=
  match pxs xy with
  | [(ax, ay); (bx, by_)] =>
      let dx := bx - ax in
      let dy := by_ - ay in
      let c := dx * (y - ay) - dy * (x - ax) in
      4 * sq c <=? sq (Z.max 1 (px w)) * (sq dx + sq dy)
  | _ => false
  end.

Definition edges (pts : list (Z * Z)) : list ((Z * Z) * (Z * Z)) :=
  match pts with
  | [] => []
  | p :: tl => zip pts (tl ++ [p])
  end.

Definition crosses (x y : Z) (e : (Z * Z) * (Z * Z)) : bool :=
  let '((ax, ay), (bx, by_)) := e in
  if Bool.eqb (ay <=? y) (by_ <=? y) then false
  else if ay <? by_ then (x - ax) * (by_ - ay) <? (y - ay) * (bx - ax)
  else (y - ay) * (bx - ax) <? (x - ax) * (by_ - ay).

Definition on_edge (x y : Z) (e : (Z * Z) * (Z * Z)) : bool :=
  let '((ax, ay), (bx, by_)) := e in
  ((bx - ax) * (y - ay) =? (by_ - ay) * (x - ax))
  && (Z.min ax bx <=? x) && (x <=? Z.max ax bx)
  && (Z.min ay by_ <=? y) && (y <=? Z.max ay by_).

Definition in_polygon (xy : list Pil.point) (x y : Z) : bool :=
  let es := edges (pxs xy) in
  Nat.odd (length (filter (fun e => crosses x y e = true) es)) || existsb (on_edge x y) es.

Definition in_ellipse (b : Pil.box) (x y : Z) : bool :=
  let '(x0, y0, x1, y1) := b in
  let w := px x1 - px x0 in
  let h := px y1 - px y0 in
  sq (2 * x - px x0 - px x1) * sq h + sq (2 * y - px y0 - px y1) * sq w <=? sq w * sq h.

Definition in_rounded_rectangle (b : Pil.box) (radius : Py.num) (x y : Z) : bool :=
  let '(x0, y0, x1, y1) := b in
  let r := px radius in
  let in_x := (px x0 + r <=? x) && (x <=? px x1 - r) in
  let in_y := (px y0 + r <=? y) && (y <=? px y1 - r) in
  let cx := if x <? px x0 + r then px x0 + r else px x1 - r in
  let cy := if y <? px y0 + r then px y0 + r else px y1 - r in
  in_x || in_y || (sq (x - cx) + sq (y - cy) <=? sq r).

Definition covers (s : Pil.shape) (x y : Z) : bool :=
  Pil.in_bbox s x y &&
  match s with
  | Pil.Line xy w => on_line xy w x y
  | Pil.Polygon xy => in_polygon xy x y
  | Pil.Ellipse b => in_ellipse b x y
  | Pil.RoundedRectangle b r => in_rounded_rectangle b r x y
  end.

End Geometric.

(** ** What the claims speak of *)

Definition barb_ink : Pil.rgba := (76, 84, 200, 180).
Definition dot_ink : Pil.rgba := (255, 255, 255, 220).
Definition white_ink : Pil.rgba := (255, 255, 255, 255).
Definition transparent : Pil.rgba := (0, 0, 0, 0).

(** The shapes drawn on an image in a given ink, oldest first. *)
Definition select (ink : Pil.rgba) (o : Pil.op) : option Pil.shape :=
  match o with
  | Pil.Draw s i => if decide (i = ink) then Some s else None
  | Pil.PutAlpha _ => None
  end.

Definition painted (ink : Pil.rgba) (img : Pil.Image) : list Pil.shape :=
  omap (select ink) (Pil.ops img).

(** The shapes drawn on an image, in any ink. *)
Definition shape_of (o : Pil.op) : option Pil.shape :=
  match o with
  | Pil.Draw s _ => Some s
  | Pil.PutAlpha _ => None
  end.

Definition shapes (img : Pil.Image) : list Pil.shape :=
  omap shape_of (Pil.ops img).

Definition is_ellipse (s : Pil.shape) : bool :=
  match s with Pil.Ellipse _ => true | _ => false end.

(** The circle of centre [(cx, cy)] and radius [r], as [ellipse] takes it. *)
Definition circle (cx cy r : Z) : Pil.shape :=
  Pil.Ellipse (Py.Int (cx - r), Py.Int (cy - r), Py.Int (cx + r), Py.Int (cy + r)).

(** The length of a horizontal segment. *)
Definition segment_length (s : Pil.shape) : option Z :=
  match s with
  | Pil.Line [(a, _); (b, _)] _ => Some (Z.abs (Py.num_floor b - Py.num_floor a))
  | _ => None
  end.

Definition is_horizontal (s : Pil.shape) : Prop :=
  match s with
  | Pil.Line [(_, y0); (_, y1)] _ => y0 = y1
  | _ => False
  end.

(** The region of the icon: what the mask's rounded rectangle covers. *)
Definition region (size : Z) : Pil.shape :=
  Pil.RoundedRectangle (Py.Int 0, Py.Int 0, Py.Int size, Py.Int size) (Py.Int (size / 8)).

Definition mask_of (size : Z) : Pil.LImage :=
  Pil.mkL (size, size) 0 [(region size, 255)].

(** ** The checks behind the alpha channel of the icon *)

(** [lo < c < hi] for every [c] that [within cs m] admits. *)
Definition strictly_between (cs : list Py.num) (m lo hi : Z) : bool :=
  forallb (fun a => (lo <? Py.num_floor a - m) && (Py.num_ceil a + m <? hi)) cs.

(** A shape that stays in one of the two bands between the corners of the
    region. *)
Definition clear_of_corners (size : Z) (s : Pil.shape) : bool :=
  let '(xs, ys, m) := Pil.extent s in
  let r := size / 8 in
  strictly_between xs m r (size - r) || strictly_between ys m r (size - r).

Definition c1_post_ok (size : Z) (o : Pil.op) : bool :=
  match o with
  | Pil.Draw s ink =>
      clear_of_corners size s
      && ((Pil.alpha ink =? 255)
          || (bool_decide (ink = barb_ink) || bool_decide (ink = dot_ink))
             && negb (Pil.in_bbox s (size / 2) (size / 2)))
  | Pil.PutAlpha _ => false
  end.

Definition is_region_mask (size : Z) (m : Pil.LImage) : bool :=
  match m with
  | Pil.mkL (w, h) c
      [(Pil.RoundedRectangle (Py.Int x0, Py.Int y0, Py.Int x1, Py.Int y1) (Py.Int r), v)] =>
      (w =? size) && (h =? size) && (c =? 0)
      && (x0 =? 0) && (y0 =? 0) && (x1 =? size) && (y1 =? size) && (r =? size / 8)
      && (v =? 255)
  | _ => false
  end.

(** The drawing calls after the first [putalpha], with its mask. *)
Fixpoint after_putalpha (ops : list Pil.op) : option (Pil.LImage * list Pil.op) :=
  match ops with
  | [] => None
  | Pil.PutAlpha m :: post => Some (m, post)
  | Pil.Draw _ _ :: ops' => after_putalpha ops'
  end.

Definition c1_check (size : Z) (img : Pil.Image) : bool :=
  ((Pil.size img).1 =? size) && ((Pil.size img).2 =? size)
  && (2 * (size / 8) + 2 <? size) && (0 <=? size / 8)
  && match after_putalpha (Pil.ops img) with
     | Some (m, post) => is_region_mask size m && forallb (c1_post_ok size) post
     | None => false
     end.

Definition is_draw (o : Pil.op) : bool :=
  match o with Pil.Draw _ _ => true | Pil.PutAlpha _ => false end.

(** A drawing call that leaves the pixel [(x, y)] as it is. *)
Definition unpainted {R : Pil.Rasteriser} (x y : Z) (o : Pil.op) : Prop :=
  match o with
  | Pil.Draw s _ => Pil.covers s x y = false
  | Pil.PutAlpha _ => False
  end.

(** The two dots of the menu-bar icon: one radius, [max(1, size // 16)]. *)
Definition menu_dots (size : Z) : list Pil.shape :=
  let c := size / 2 in
  let dot_size := Z.max 1 (size / 16) in
  [circle (c + size / 4) (c - size / 12) dot_size;
   circle (c + size / 5) (c + size / 8) dot_size].

(** ** The geometry of the icon, as the specification words it *)

Section Geometry.
Local Open Scope py_scope.

(** A channel between its two endpoints at [ratio]: the linear
    interpolation, cut to an integer. *)
Definition lerp (e0 e1 : Z) (ratio : Py.num) : result Py.num :=
  int (e0 * (1 - ratio) + e1 * ratio).

(** The colour of row [y]: from (76, 84, 200) to (110, 115, 230) along
    [y / size], opaque. *)
Definition gradient_color (size y : Z) : result Pil.rgba :=
  ratio <- y / size;;
  r <- lerp 76 110 ratio;;
  g <- lerp 84 115 ratio;;
  b <- lerp 200 230 ratio;;
  Pil.getink (r, g, b, Py.Int 255).

(** The feather: its anchor [(x, y)], its height and its width. *)
Definition feather (size : Z) : result (Py.num * Py.num * Py.num * Py.num) :=
  center <- size // 2;;
  feather_height <- size // 1.8%float;;
  feather_width <- feather_height // 3;;
  feather_x <- center - size // 8;;
  Ok (feather_x, center, feather_height, feather_width).

(** The pair of barbs at progress [i / 7]: the ordinate they share, and
    where the left one and the right one start and end. *)
Record barbs : Set := mkBarbs {
  barb_y : Py.num;
  left_start : Py.num;
  left_end : Py.num;
  right_start : Py.num;
  right_end : Py.num;
  barb_width : Py.num
}.

Definition barbs_at (size : Z) (f : Py.num * Py.num * Py.num * Py.num) (i : Z)
  : result barbs :=
  let '(feather_x, feather_y, feather_height, feather_width) := f in
  progress <- i / 7.0%float;;
  y <- feather_y - feather_height // 2 + (feather_height * progress * 0.8%float);;
  left_end <- feather_x - int (feather_width * math_sin (progress * math_pi) * 0.5%float);;
  width <- max_ 1 (size // 80);;
  right_start <- feather_x + feather_height // 24;;
  right_end <- feather_x + int (feather_width * math_sin (progress * math_pi) * 0.3%float)
               + feather_height // 12;;
  Ok (mkBarbs y feather_x left_end right_start right_end width).

End Geometry.

Definition gradient_line (size y : Z) (c : Pil.rgba) : Pil.op :=
  Pil.Draw (Pil.Line [(Py.Int 0, Py.Int y); (Py.Int size, Py.Int y)] (Py.Int 0)) c.

Definition barb_lines (b : barbs) : list Pil.shape :=
  [Pil.Line [(left_start b, barb_y b); (left_end b, barb_y b)] (barb_width b);
   Pil.Line [(right_start b, barb_y b); (right_end b, barb_y b)] (barb_width b)].

(** The three decorative dots: their centres at fixed offsets from the
    centre of the image, their radii. *)
Definition dot_radii (size : Z) : list Z :=
  [Z.max 2 (size / 25); Z.max 1 (size / 35); Z.max 1 (size / 45)].

Definition dot_centres (size : Z) : list (Z * Z) :=
  let c := size / 2 in
  [(c + size / 4, c - size / 12); (c + size / 6, c + size / 8); (c + size / 3, c + size / 16)].

Definition dots (size : Z) : list Pil.shape :=
  zip_with (fun c r => circle c.1 c.2 r) (dot_centres size) (dot_radii size).

(** The drawing calls of [create_icon], in order. *)
Definition icon_ops (size : Z) (cs : list Pil.rgba) (shaft : list Pil.point)
    (width : Py.num) (vane : list Pil.point) (bs : list barbs) (tri : list Pil.point)
  : list Pil.op :=
  zip_with (gradient_line size) (range size) cs
  ++ [Pil.PutAlpha (mask_of size);
      Pil.Draw (Pil.Line shaft width) white_ink;
      Pil.Draw (Pil.Polygon vane) white_ink]
  ++ map (fun s => Pil.Draw s barb_ink) (flat_map barb_lines bs)
  ++ map (fun s => Pil.Draw s dot_ink) (dots size)
  ++ [Pil.Draw (Pil.Polygon tri) white_ink].

(** The interpolation in exact arithmetic: the integer part of
    [e0 + (e1 - e0) * y / size]. *)
Definition exact_lerp (e0 e1 size y : Z) : Z := (e0 * (size - y) + e1 * y) / size.

Definition exact_color (size y : Z) : Pil.rgba :=
  (exact_lerp 76 110 size y, exact_lerp 84 115 size y, exact_lerp 200 230 size y, 255).

(** A colour within one unit of [(r, g, b)] on each channel. *)
Definition within_rounding (c : Pil.rgba) (e : Z * Z * Z) : Prop :=
  let '(r, g, b, _) := c in
  let '(er, eg, eb) := e in
  Z.abs (r - er) <= 1 /\ Z.abs (g - eg) <= 1 /\ Z.abs (b - eb) <= 1.

(** The first [size] drawing calls are in the inks of the exact
    interpolation. *)
Definition c2_check (size : Z) (img : Pil.Image) : bool :=
  forallb (fun yo : Z * Pil.op =>
             match yo.2 with
             | Pil.Draw _ c => bool_decide (c = exact_color size yo.1)
             | Pil.PutAlpha _ => false
             end)
          (zip (range size) (Pil.ops img)).

(** The lengths of the left barbs and of the right barbs, along the
    feather. *)
Fixpoint alternate {A} (l : list A) : list A * list A :=
  match l with
  | a :: b :: l' => let '(xs, ys) := alternate l' in (a :: xs, b :: ys)
  | _ => ([], [])
  end.

Definition barb_lengths (img : Pil.Image) : list Z * list Z :=
  alternate (omap segment_length (painted barb_ink img)).

(** Each no longer than the one before. *)
Fixpoint non_increasing (l : list Z) : bool :=
  match l with
  | a :: (b :: _) as l' => (b <=? a) && non_increasing l'
  | _ => true
  end.

(** Six lengths that grow to the middle pair and mirror themselves. *)
Definition rise_and_fall (l : list Z) : bool :=
  match l with
  | [a; b; c; d; e; f] => (a <=? b) && (b <=? c) && (c =? d) && (e =? b) && (f =? a)
  | _ => false
  end.

(** The third length exceeds the first. *)
Definition third_exceeds_first (l : list Z) : bool :=
  match l with
  | a :: _ :: c :: _ => a <? c
  | _ => false
  end.

Definition c6_check (size : Z) (img : Pil.Image) : bool :=
  let '(ls, rs) := barb_lengths img in
  rise_and_fall ls && rise_and_fall rs
  && ((size <? 32) || third_exceeds_first ls && third_exceeds_first rs).

Definition icon_check (size : Z) (img : Pil.Image) : bool :=
  c1_check size img && c2_check size img && c6_check size img.

(** ** What the driver leaves behind *)

Local Open Scope string_scope.

(** The paths of the two files of a size, and what is rendered into each
    file of a turn of the loop: the size itself, and twice the size up to
    512. *)
Definition icon_file (size : Z) : string :=
  icon_dir ++ "/icon_" ++ str size ++ "x" ++ str size ++ ".png".

Definition icon_file_2x (size : Z) : string :=
  icon_dir ++ "/icon_" ++ str size ++ "x" ++ str size ++ "@2x.png".

Definition app_writes (size : Z) : list (string * Z) :=
  (icon_file size, size)
  :: (if (size <=? 512)%Z then [(icon_file_2x size, (size * 2)%Z)] else []).

Definition app_outputs : list (string * Z) := flat_map app_writes sizes.

Definition menu_outputs : list (string * Z) :=
  [(menu_iconset_dir ++ "/menubar_16.png", 16%Z);
   (menu_iconset_dir ++ "/menubar_16@2x.png", 32%Z);
   (menu_iconset_dir ++ "/menubar_16@3x.png", 48%Z)].

Local Close Scope string_scope.

Definition app_files : list string := app_outputs.*1.
Definition menu_files : list string := menu_outputs.*1.

(** The file at [f] holds the image that the call [r] returns. *)
Definition holds (m : gmap string node) (f : string) (r : result Pil.Image) : Prop :=
  exists img, r = Ok img /\ m !! f = Some (File img).

(** A sequence of writes to the file system, the last one of a path
    prevailing, and what it leaves at a path. *)
Definition writes (l : list (string * node)) (m : gmap string node) : gmap string node :=
  foldl (fun m kv => <[kv.1 := kv.2]> m) m l.

Fixpoint last_write (k : string) (l : list (string * node)) : option node :=
  match l with
  | [] => None
  | (k', v) :: l' =>
      match last_write k l' with
      | Some v' => Some v'
      | None => if String.eqb k' k then Some v else None
      end
  end.

(** The directories that [os.makedirs(p)] makes sure of. *)
Definition dirs (p : string) : list (string * node) := map (fun a => (a, Dir)) (ancestors p).

(** The write of the image that [render] returns for an output. *)
Definition saved (render : Z -> result Pil.Image) (o : string * Z) (kv : string * node) : Prop :=
  exists img, render o.2 = Ok img /\ kv = (o.1, File img).

(** What the driver needs of the file system it starts in: no file where
    it wants a directory, no directory where it wants a file. *)
Definition ready (m : gmap string node) : Prop :=
  Forall (fun a => forall img, m !! a <> Some (File img))
         (ancestors icon_dir ++ ancestors menu_iconset_dir)
  /\ Forall (fun f => m !! f <> Some Dir) (app_files ++ menu_files).

(** The two directories and the directories above them. *)
Definition output_dirs : list string := ancestors icon_dir ++ ancestors menu_iconset_dir.



(** The drawing calls after the mask: the shaft, the vane, the barbs, the
    dots and the triangle. *)
Definition feather_ops (size : Z) (shaft : list Pil.point) (width : Py.num)
    (vane : list Pil.point) (bs : list barbs) (tri : list Pil.point) : list Pil.op :=
  [Pil.Draw (Pil.Line shaft width) white_ink; Pil.Draw (Pil.Polygon vane) white_ink]
  ++ map (fun s => Pil.Draw s barb_ink) (flat_map barb_lines bs)
  ++ map (fun s => Pil.Draw s dot_ink) (dots size)
  ++ [Pil.Draw (Pil.Polygon tri) white_ink].

(** * Properties *)

(** ** The error monad and loops *)

Lemma bind_ok {A B} (m : result A) (f : A -> result B) (b : B) :
  bind m f = Ok b -> exists a, m = Ok a /\ f a = Ok b.
Proof. destruct m; simpl; [eauto | discriminate]. Qed.

Lemma fmap_ok {A B} (f : A -> B) (m : result A) (b : B) :
  f <$> m = Ok b -> exists a, m = Ok a /\ b = f a.
Proof. destruct m; simpl; [intros [= <-]; eauto | discriminate]. Qed.

Lemma is_ok_true {A} (m : result A) : is_ok m = true -> exists a, m = Ok a.
Proof. destruct m; [eauto | discriminate]. Qed.

(** Inversion of a successful run: every statement succeeded. *)
Ltac inv_binds H :=
  repeat (let a := fresh "v" in
          let Ha := fresh "Hv" in
          apply bind_ok in H; destruct H as (a & Ha & H)).

Ltac inv_ok H := inv_binds H; try (injection H as H); subst.

Lemma for_app {A S} (xs ys : list A) (body : A -> S -> result S) (s : S) :
  for_ (xs ++ ys) body s = (s' <- for_ xs body s;; for_ ys body s').
Proof.
  revert s; induction xs as [|x xs IH]; intros s; simpl; [reflexivity|].
  destruct (body x s); simpl; auto.
Qed.

(** A loop whose body appends to a list appends one entry per turn. *)
Lemma for_appends {A B S} (proj : S -> list B) (xs : list A)
    (body : A -> S -> result S) (P : A -> B -> Prop) :
  (forall x s s', body x s = Ok s' -> exists b, proj s' = proj s ++ [b] /\ P x b) ->
  forall s s', for_ xs body s = Ok s' ->
    exists bs, proj s' = proj s ++ bs /\ Forall2 P xs bs.
Proof.
  intros Hbody. induction xs as [|x xs IH]; intros s s' H; simpl in H.
  - injection H as <-. exists []. rewrite app_nil_r. split; [reflexivity | constructor].
  - apply bind_ok in H as (s1 & H1 & H).
    apply Hbody in H1 as (b & E1 & Pb).
    apply IH in H as (bs & E & Pbs).
    exists (b :: bs). split; [| constructor; assumption].
    rewrite E, E1, <- app_assoc. reflexivity.
Qed.

(** ** The numbers of the script, on integers *)

Lemma floordiv_int (a b : Z) :
  b <> 0 -> (a // b)%py = Ok (Py.Int (a / b)).
Proof.
  intros Hb. unfold lift2, pure_num; simpl.
  destruct (Z.eqb_spec b 0); [contradiction | reflexivity].
Qed.

Lemma max_int (a b : Z) : Py.max (Py.Int a) (Py.Int b) = Py.Int (Z.max a b).
Proof.
  unfold Py.max; simpl. destruct (Z.ltb_spec a b); f_equal; lia.
Qed.

(** ** The geometric rasteriser is a rasteriser *)

Lemma within_ints (a b c : Z) :
  a <= c <= b -> Pil.within [Py.Int a; Py.Int b] 0 c = true.
Proof.
  intros H. unfold Pil.within; simpl.
  apply andb_true_iff; split; apply orb_true_iff.
  - left. apply Z.leb_le. lia.
  - right. apply orb_true_iff. left. apply Z.leb_le. lia.
Qed.

#[global] Program Instance geometric : Pil.Rasteriser := {|
  Pil.covers := Geometric.covers
|}.
Next Obligation.
  intros s x y H. unfold Geometric.covers in H.
  apply andb_true_iff in H. tauto.
Qed.
Next Obligation.
  intros x0 y0 x1 y1 r x y Hr Hw Hh Hx Hy Hband.
  unfold Geometric.covers. apply andb_true_iff; split.
  - unfold Pil.in_bbox; simpl. rewrite !within_ints by lia. reflexivity.
  - unfold Geometric.in_rounded_rectangle, Geometric.px; simpl.
    apply orb_true_iff; left. apply orb_true_iff.
    destruct Hband as [H|H]; [left | right];
      apply andb_true_iff; split; apply Z.leb_le; lia.
Qed.
Next Obligation.
  intros cx cy d Hd.
  unfold Geometric.covers. apply andb_true_iff; split.
  - unfold Pil.in_bbox; simpl. rewrite !within_ints by lia. reflexivity.
  - unfold Geometric.in_ellipse, Geometric.px, Geometric.sq; simpl.
    apply Z.leb_le.
    replace (2 * cx - (cx - d) - (cx + d)) with 0 by lia.
    replace (2 * cy - (cy - d) - (cy + d)) with 0 by lia.
    nia.
Qed.

(** ** Pixels *)

Lemma after_putalpha_split ops m post :
  after_putalpha ops = Some (m, post) ->
  exists pre, ops = pre ++ Pil.PutAlpha m :: post.
Proof.
  induction ops as [|o ops IH]; simpl; [discriminate|].
  destruct o as [s ink|m'].
  - intros H. destruct (IH H) as (pre & ->). exists (Pil.Draw s ink :: pre). reflexivity.
  - intros [= -> ->]. exists []. reflexivity.
Qed.

Lemma is_region_mask_eq size m : is_region_mask size m = true -> m = mask_of size.
Proof.
  destruct m as [[w h] c ops]. unfold is_region_mask, mask_of, region.
  destruct ops as [|[s v] ops]; try discriminate.
  destruct s as [| | |[[[x0 y0] x1] y1] r]; try discriminate.
  destruct x0 as [x0|], y0 as [y0|], x1 as [x1|], y1 as [y1|], r as [r|]; try discriminate.
  destruct ops; try discriminate.
  rewrite !andb_true_iff, !Z.eqb_eq. intros H.
  repeat match goal with H : _ /\ _ |- _ => destruct H end. subst. reflexivity.
Qed.

Lemma painted_elem ink img s :
  In (Pil.Draw s ink) (Pil.ops img) -> In s (painted ink img).
Proof.
  intros H. unfold painted.
  apply list_elem_of_In, list_elem_of_omap.
  exists (Pil.Draw s ink). split; [apply list_elem_of_In, H|].
  simpl. destruct (decide (ink = ink)); [reflexivity | contradiction].
Qed.

Section PixelLemmas.
Context {R : Pil.Rasteriser}.

Lemma within_between cs m lo hi c :
  Pil.within cs m c = true -> strictly_between cs m lo hi = true -> lo < c < hi.
Proof.
  unfold Pil.within, strictly_between.
  rewrite andb_true_iff, !existsb_exists, forallb_forall.
  intros [(a & Ha & Hlo) (b & Hb & Hhi)] Hall.
  apply Z.leb_le in Hlo, Hhi.
  pose proof (Hall a Ha) as Ha'. pose proof (Hall b Hb) as Hb'.
  apply andb_true_iff in Ha' as [Ha' _]. apply andb_true_iff in Hb' as [_ Hb'].
  apply Z.ltb_lt in Ha', Hb'. lia.
Qed.

Lemma clear_of_corners_band size s x y :
  Pil.covers s x y = true -> clear_of_corners size s = true ->
  size / 8 < x < size - size / 8 \/ size / 8 < y < size - size / 8.
Proof.
  intros Hc Hclear. apply Pil.covers_in_bbox in Hc.
  unfold Pil.in_bbox in Hc. unfold clear_of_corners in Hclear.
  destruct (Pil.extent s) as [[xs ys] m].
  apply andb_true_iff in Hc as [Hx Hy].
  apply orb_true_iff in Hclear as [H|H]; [left | right]; eapply within_between; eauto.
Qed.

Lemma region_band size x y :
  0 <= size / 8 -> 2 * (size / 8) + 2 < size ->
  0 <= x < size -> 0 <= y < size ->
  size / 8 < x < size - size / 8 \/ size / 8 < y < size - size / 8 ->
  Pil.covers (region size) x y = true.
Proof.
  intros Hr Hs Hx Hy Hband. unfold region.
  apply Pil.rounded_rectangle_bands; lia.
Qed.

Lemma mask_getpixel size x y :
  Pil.l_getpixel (mask_of size) x y = if Pil.covers (region size) x y then 255 else 0.
Proof. reflexivity. Qed.

Lemma fold_unpainted x y ops p :
  Forall (unpainted x y) ops -> fold_left (Pil.apply_op x y) ops p = p.
Proof.
  intros H. revert p. induction H as [|o ops Ho _ IH]; intros p; simpl; [reflexivity|].
  rewrite IH. destruct o; simpl in *; [rewrite Ho; reflexivity | contradiction].
Qed.

(** After drawing calls only, a pixel is what it was or the ink of a shape
    that covers it. *)
Lemma fold_draws x y ops p :
  forallb is_draw ops = true ->
  fold_left (Pil.apply_op x y) ops p = p
  \/ exists s ink, In (Pil.Draw s ink) ops /\ Pil.covers s x y = true
                   /\ fold_left (Pil.apply_op x y) ops p = ink.
Proof.
  revert p. induction ops as [|o ops IH]; intros p H; simpl in *; [left; reflexivity|].
  apply andb_true_iff in H as [Ho H].
  destruct o as [s ink|]; [|discriminate]. simpl.
  destruct (IH (if Pil.covers s x y then ink else p) H) as [E|(s' & ink' & Hin & Hc & E)].
  - rewrite E. destruct (Pil.covers s x y) eqn:Hc; [right | left; reflexivity].
    exists s, ink. auto.
  - right. exists s', ink'. auto.
Qed.

Lemma getpixel_some img x y p :
  Pil.getpixel img x y = Some p ->
  (0 <= x < (Pil.size img).1 /\ 0 <= y < (Pil.size img).2)
  /\ p = fold_left (Pil.apply_op x y) (Pil.ops img) (Pil.background img).
Proof.
  unfold Pil.getpixel, Pil.in_image.
  destruct (_ && _) eqn:E; [|discriminate]. intros [= <-].
  rewrite !andb_true_iff in E. destruct E as (((H1 & H2) & H3) & H4).
  apply Z.leb_le in H1, H3. apply Z.ltb_lt in H2, H4. auto.
Qed.

Lemma alpha_set_alpha p a : Pil.alpha (Pil.set_alpha p a) = a.
Proof. destruct p as [[[? ?] ?] ?]. reflexivity. Qed.

Lemma c1_check_sound size img :
  c1_check size img = true ->
  Pil.size img = (size, size)
  /\ (forall x y p, Pil.getpixel img x y = Some p ->
        (Pil.covers (region size) x y = false -> Pil.alpha p = 0)
        /\ (Pil.covers (region size) x y = true ->
            Pil.alpha p = 255
            \/ (Pil.alpha p = 180 /\ exists s, In s (painted barb_ink img) /\ Pil.covers s x y = true)
            \/ (Pil.alpha p = 220 /\ exists s, In s (painted dot_ink img) /\ Pil.covers s x y = true)))
  /\ (exists p, Pil.getpixel img (size / 2) (size / 2) = Some p
                /\ Pil.covers (region size) (size / 2) (size / 2) = true
                /\ Pil.alpha p = 255).
Proof.
  unfold c1_check. rewrite !andb_true_iff.
  intros ((((Hw & Hh) & Hs) & Hr) & Hops).
  apply Z.eqb_eq in Hw, Hh. apply Z.ltb_lt in Hs. apply Z.leb_le in Hr.
  destruct (after_putalpha (Pil.ops img)) as [[m post]|] eqn:Hsplit; [|discriminate].
  apply andb_true_iff in Hops as [Hm Hpost].
  apply is_region_mask_eq in Hm. subst m.
  apply after_putalpha_split in Hsplit as (pre & Hsplit).
  assert (Hsize : Pil.size img = (size, size)).
  { destruct (Pil.size img); simpl in *; congruence. }
  assert (Hdraws : forallb is_draw post = true).
  { rewrite forallb_forall in *. intros o Ho. specialize (Hpost o Ho).
    destruct o; [reflexivity | discriminate]. }
  assert (Hfold : forall x y,
    fold_left (Pil.apply_op x y) (Pil.ops img) (Pil.background img) =
    fold_left (Pil.apply_op x y) post
      (Pil.set_alpha (fold_left (Pil.apply_op x y) pre (Pil.background img))
         (if Pil.covers (region size) x y then 255 else 0))).
  { intros x y. rewrite Hsplit, fold_left_app. reflexivity. }
  assert (Hin : forall s ink, In (Pil.Draw s ink) post -> In (Pil.Draw s ink) (Pil.ops img)).
  { intros s ink H. rewrite Hsplit. apply in_or_app. right. right. exact H. }
  assert (Hinside : forall x y, 0 <= x < size -> 0 <= y < size ->
    Pil.covers (region size) x y = true ->
    let p := fold_left (Pil.apply_op x y) (Pil.ops img) (Pil.background img) in
    Pil.alpha p = 255
    \/ exists s ink, In (Pil.Draw s ink) post /\ Pil.covers s x y = true
                     /\ p = ink /\ Pil.alpha ink <> 255).
  { intros x y Hx Hy Hreg p. subst p. rewrite Hfold, Hreg.
    destruct (fold_draws x y post
                (Pil.set_alpha (fold_left (Pil.apply_op x y) pre (Pil.background img)) 255)
                Hdraws) as [E|(s & ink & Hs' & Hc & E)].
    - left. rewrite E. apply alpha_set_alpha.
    - rewrite E. destruct (Z.eq_dec (Pil.alpha ink) 255); [left; assumption|].
      right. exists s, ink. auto. }
  split; [exact Hsize|]. split.
  - intros x y p Hp. apply getpixel_some in Hp as [[Hx Hy] ->].
    rewrite Hsize in Hx, Hy. simpl in Hx, Hy. split.
    + intros Hreg. rewrite Hfold, Hreg.
      rewrite fold_unpainted; [apply alpha_set_alpha|].
      apply Forall_forall. intros o Ho. apply list_elem_of_In in Ho.
      rewrite forallb_forall in Hpost. specialize (Hpost o Ho).
      destruct o as [s ink|]; [|discriminate]. simpl.
      apply andb_true_iff in Hpost as [Hclear _].
      destruct (Pil.covers s x y) eqn:Hc; [|reflexivity].
      pose proof (clear_of_corners_band size s x y Hc Hclear) as Hband.
      rewrite (region_band size x y) in Hreg by assumption. discriminate.
    + intros Hreg.
      destruct (Hinside x y Hx Hy Hreg) as [E|(s & ink & Hs' & Hc & E & Hne)];
        [left; exact E|].
      rewrite forallb_forall in Hpost. specialize (Hpost _ Hs'). simpl in Hpost.
      apply andb_true_iff in Hpost as [_ Hink].
      apply orb_true_iff in Hink as [Hink|Hink]; [apply Z.eqb_eq in Hink; contradiction|].
      apply andb_true_iff in Hink as [Hink _].
      right. rewrite E.
      apply orb_true_iff in Hink as [Hink|Hink]; apply bool_decide_eq_true in Hink; subst ink;
        [left | right]; (split; [reflexivity|]); exists s; (split; [|exact Hc]);
        apply painted_elem, Hin, Hs'.
  - assert (Hc : 0 <= size / 2 < size) by (Z.div_mod_to_equations; lia).
    assert (Hreg : Pil.covers (region size) (size / 2) (size / 2) = true).
    { apply region_band; try lia. left. Z.div_mod_to_equations; lia. }
    eexists. split; [|split; [exact Hreg|]].
    + unfold Pil.getpixel, Pil.in_image. rewrite Hsize. simpl.
      replace (0 <=? size / 2) with true by (symmetry; apply Z.leb_le; lia).
      replace (size / 2 <? size) with true by (symmetry; apply Z.ltb_lt; lia).
      reflexivity.
    + destruct (Hinside _ _ Hc Hc Hreg) as [E|(s & ink & Hs' & Hcov & E & Hne)]; [exact E|].
      rewrite forallb_forall in Hpost. specialize (Hpost _ Hs'). simpl in Hpost.
      apply andb_true_iff in Hpost as [_ Hink].
      apply orb_true_iff in Hink as [Hink|Hink]; [apply Z.eqb_eq in Hink; contradiction|].
      apply andb_true_iff in Hink as [_ Hbox]. apply negb_true_iff in Hbox.
      apply Pil.covers_in_bbox in Hcov. congruence.
Qed.

End PixelLemmas.

(** ** Inversion of the renderers *)

Arguments Py.max : simpl never.

Lemma line_ok img xy fill w img' :
  Pil.line img xy fill w = Ok img' ->
  exists ink, Pil.getink fill = Ok ink /\ img' = Pil.draw img (Pil.Line xy w) ink.
Proof. unfold Pil.line. intros H. inv_ok H. eauto. Qed.

Lemma polygon_ok img xy fill img' :
  Pil.polygon img xy fill = Ok img' ->
  exists ink, Pil.getink fill = Ok ink /\ img' = Pil.draw img (Pil.Polygon xy) ink.
Proof. unfold Pil.polygon. intros H. inv_ok H. eauto. Qed.

Lemma ellipse_ok img xy fill img' :
  Pil.ellipse img xy fill = Ok img' ->
  exists ink, Pil.getink fill = Ok ink /\ img' = Pil.draw img (Pil.Ellipse xy) ink.
Proof. unfold Pil.ellipse. intros H. inv_ok H. eauto. Qed.

Lemma new_RGBA_ok sz c img :
  Pil.new_RGBA sz c = Ok img -> 0 <= sz.1 /\ 0 <= sz.2 /\ img = Pil.mkImage sz c [].
Proof.
  unfold Pil.new_RGBA, Pil.check_size. intros H. inv_ok H.
  destruct (_ || _) eqn:E; [discriminate|].
  apply orb_false_iff in E as [E1 E2]. apply Z.ltb_ge in E1, E2. auto.
Qed.

(** A loop that adds a point per turn. *)
Lemma for_points (xs : list Z) (body : Z -> list Pil.point -> result (list Pil.point)) :
  (forall x s s', body x s = Ok s' -> exists p, s' = s ++ [p]) ->
  forall s s', for_ xs body s = Ok s' -> length s' = (length s + length xs)%nat.
Proof.
  intros Hbody. induction xs as [|x xs IH]; intros s s' H; simpl in H.
  - injection H as <-. simpl. lia.
  - apply bind_ok in H as (s1 & H1 & H). apply Hbody in H1 as (p & ->).
    apply IH in H. rewrite H, length_app. simpl. lia.
Qed.

Lemma menu_vane_left_point fx fy fh fw i s s' :
  menu_vane_left fx fy fh fw i s = Ok s' -> exists p, s' = s ++ [p].
Proof. unfold menu_vane_left. intros H. inv_ok H. eauto. Qed.

Lemma menu_vane_right_point fx fy fh fw i s s' :
  menu_vane_right fx fy fh fw i s = Ok s' -> exists p, s' = s ++ [p].
Proof. unfold menu_vane_right. intros H. inv_ok H. eauto. Qed.

Lemma menu_dot_ok size (x y : Z) img img' :
  menu_dot size (Py.Int x, Py.Int y) img = Ok img' ->
  img' = Pil.draw img (circle x y (Z.max 1 (size / 16))) white_ink.
Proof.
  unfold menu_dot. intros H. inv_binds H.
  cbn in Hv. rewrite max_int in Hv. injection Hv as <-.
  cbn in Hv0, Hv1, Hv2, Hv3.
  injection Hv0 as <-. injection Hv1 as <-. injection Hv2 as <-. injection Hv3 as <-.
  injection Hv5 as <-. injection H as <-. reflexivity.
Qed.

Lemma create_menu_bar_icon_ops size img :
  create_menu_bar_icon size = Ok img ->
  exists (shaft : list Pil.point) (width : Py.num) (vane : list Pil.point),
    length shaft = 2%nat /\ length vane = 12%nat
    /\ img = Pil.mkImage (size, size) transparent
               (Pil.Draw (Pil.Line shaft width) white_ink
                :: Pil.Draw (Pil.Polygon vane) white_ink
                :: map (fun s => Pil.Draw s white_ink) (menu_dots size)).
Proof.
  intros H. unfold create_menu_bar_icon in H. inv_binds H.
  apply new_RGBA_ok in Hv as (_ & _ & ->).
  rewrite floordiv_int in Hv0, Hv1 by discriminate.
  injection Hv0 as <-. injection Hv1 as <-.
  apply line_ok in Hv9 as (ink1 & Hink1 & ->). injection Hink1 as <-.
  apply (for_points _ _ (menu_vane_left_point _ _ _ _)) in Hv10.
  apply (for_points _ _ (menu_vane_right_point _ _ _ _)) in Hv11.
  apply polygon_ok in Hv12 as (ink2 & Hink2 & ->). injection Hink2 as <-.
  cbn in Hv13, Hv14, Hv15, Hv16.
  injection Hv13 as <-. injection Hv14 as <-. injection Hv15 as <-. injection Hv16 as <-.
  simpl in Hv17. inv_binds Hv17.
  apply menu_dot_ok in Hv. apply menu_dot_ok in Hv0. subst.
  injection Hv17 as <-. injection H as <-.
  eexists _, _, _. split; [|split]; [| |reflexivity].
  - reflexivity.
  - rewrite Hv11, Hv10. reflexivity.
Qed.

Lemma gradient_row_ok size y img img' :
  gradient_row size y img = Ok img' ->
  exists c, gradient_color size y = Ok c /\ img' = Pil.draw img (Pil.Line [(Py.Int 0, Py.Int y); (Py.Int size, Py.Int y)] (Py.Int 0)) c.
Proof.
  unfold gradient_row. intros H. inv_binds H.
  exists v3. injection H as <-. split; [|reflexivity].
  unfold gradient_color, lerp. rewrite Hv. cbn [bind]. rewrite Hv0. cbn [bind].
  rewrite Hv1. cbn [bind]. rewrite Hv2. cbn [bind]. exact Hv3.
Qed.

Lemma gradient_rows size xs img img' :
  for_ xs (gradient_row size) img = Ok img' ->
  exists cs, Forall2 (fun y c => gradient_color size y = Ok c) xs cs
    /\ img' = Pil.mkImage (Pil.size img) (Pil.background img)
                (Pil.ops img ++ zip_with (gradient_line size) xs cs).
Proof.
  revert img. induction xs as [|y xs IH]; intros img H; simpl in H.
  - injection H as <-. exists []. split; [constructor|].
    simpl. rewrite app_nil_r. destruct img; reflexivity.
  - apply bind_ok in H as (img1 & H1 & H).
    apply gradient_row_ok in H1 as (c & Hc & ->).
    apply IH in H as (cs & Hcs & ->).
    exists (c :: cs). split; [constructor; assumption|].
    simpl. rewrite <- app_assoc. reflexivity.
Qed.

Lemma barb_pair_ok size f i img img' :
  barb_pair size f.1.1.1 f.1.1.2 f.1.2 f.2 i img = Ok img' ->
  exists b, barbs_at size f i = Ok b
    /\ img' = Pil.mkImage (Pil.size img) (Pil.background img)
                (Pil.ops img ++ map (fun s => Pil.Draw s barb_ink) (barb_lines b)).
Proof.
  destruct f as [[[fx fy] fh] fw]. cbn [fst snd].
  unfold barb_pair. intros H. inv_binds H.
  apply line_ok in Hv3 as (ink1 & Hink1 & ->). injection Hink1 as <-.
  injection Hv7 as <-. injection H as <-.
  eexists. split.
  - unfold barbs_at. rewrite Hv. cbn [bind]. rewrite Hv0. cbn [bind].
    rewrite Hv1. cbn [bind]. rewrite Hv2. cbn [bind]. rewrite Hv4. cbn [bind].
    rewrite Hv5. cbn [bind]. reflexivity.
  - unfold Pil.draw, barb_lines. simpl. rewrite <- app_assoc.
    rewrite Hv2 in Hv6. injection Hv6 as <-. reflexivity.
Qed.

Lemma barb_pairs size f xs img img' :
  for_ xs (barb_pair size f.1.1.1 f.1.1.2 f.1.2 f.2) img = Ok img' ->
  exists bs, Forall2 (fun i b => barbs_at size f i = Ok b) xs bs
    /\ img' = Pil.mkImage (Pil.size img) (Pil.background img)
                (Pil.ops img ++ map (fun s => Pil.Draw s barb_ink) (flat_map barb_lines bs)).
Proof.
  revert img. induction xs as [|i xs IH]; intros img H; simpl in H.
  - injection H as <-. exists []. split; [constructor|].
    simpl. rewrite app_nil_r. destruct img; reflexivity.
  - apply bind_ok in H as (img1 & H1 & H).
    apply barb_pair_ok in H1 as (b & Hb & ->).
    apply IH in H as (bs & Hbs & ->).
    exists (b :: bs). split; [constructor; assumption|].
    simpl. rewrite <- !app_assoc. reflexivity.
Qed.

Lemma dot_ok size (i x y : Z) img img' :
  dot size (i, (Py.Int x, Py.Int y)) img = Ok img' ->
  img' = Pil.draw img
           (circle x y (if i =? 0 then Z.max 2 (size / 25)
                        else if i =? 1 then Z.max 1 (size / 35)
                        else Z.max 1 (size / 45))) dot_ink.
Proof.
  unfold dot. intros H. inv_binds H.
  assert (Hsize : v = Py.Int (if i =? 0 then Z.max 2 (size / 25)
                              else if i =? 1 then Z.max 1 (size / 35)
                              else Z.max 1 (size / 45))).
  { destruct (i =? 0); [|destruct (i =? 1)];
      cbn in Hv; rewrite max_int in Hv; injection Hv as <-; reflexivity. }
  subst v. cbn in Hv0, Hv1, Hv2, Hv3.
  injection Hv0 as <-. injection Hv1 as <-. injection Hv2 as <-. injection Hv3 as <-.
  injection Hv5 as <-. injection H as <-. reflexivity.
Qed.

Lemma vane_left_point fx fy fh fw i s s' :
  vane_left fx fy fh fw i s = Ok s' -> exists p, s' = s ++ [p].
Proof. unfold vane_left. intros H. inv_ok H. eauto. Qed.

Lemma vane_right_point fx fy fh fw i s s' :
  vane_right fx fy fh fw i s = Ok s' -> exists p, s' = s ++ [p].
Proof. unfold vane_right. intros H. inv_ok H. eauto. Qed.

Lemma rounded_rectangle_ok m xy r fill m' :
  Pil.rounded_rectangle m xy r fill = Ok m' ->
  m' = Pil.mkL (Pil.l_size m) (Pil.l_background m)
         (Pil.l_ops m ++ [(Pil.RoundedRectangle xy r, fill)]).
Proof. unfold Pil.rounded_rectangle. intros H. inv_ok H. reflexivity. Qed.

Lemma new_L_ok sz c m : Pil.new_L sz c = Ok m -> m = Pil.mkL sz c [].
Proof. unfold Pil.new_L. intros H. inv_ok H. reflexivity. Qed.

Ltac inv_binds_as H p :=
  repeat (let a := fresh p in
          let Ha := fresh "H" p in
          apply bind_ok in H; destruct H as (a & Ha & H)).

Lemma putalpha_ok img m img' :
  Pil.putalpha img m = Ok img' ->
  img' = Pil.mkImage (Pil.size img) (Pil.background img) (Pil.ops img ++ [Pil.PutAlpha m]).
Proof.
  unfold Pil.putalpha. destruct (bool_decide _); [|discriminate].
  intros [= <-]. reflexivity.
Qed.

(** What [create_icon] draws. *)
Lemma create_icon_ops size img :
  create_icon size = Ok img ->
  exists cs f shaft width vane bs tri,
    0 <= size
    /\ Forall2 (fun y c => gradient_color size y = Ok c) (range size) cs
    /\ feather size = Ok f
    /\ Forall2 (fun i b => barbs_at size f i = Ok b) (range2 1 7) bs
    /\ length shaft = 2%nat /\ length vane = 16%nat /\ length tri = 3%nat
    /\ img = Pil.mkImage (size, size) transparent (icon_ops size cs shaft width vane bs tri).
Proof.
  intros H. unfold create_icon in H. inv_binds H.
  apply new_RGBA_ok in Hv as (Hsize & _ & ->). simpl in Hsize.
  apply gradient_rows in Hv0 as (cs & Hcs & ->).
  apply new_L_ok in Hv1 as ->.
  rewrite floordiv_int in Hv2, Hv5, Hv6 by discriminate.
  injection Hv2 as <-. injection Hv5 as <-. injection Hv6 as <-.
  apply rounded_rectangle_ok in Hv3 as ->.
  apply putalpha_ok in Hv4 as ->.
  apply line_ok in Hv14 as (ink1 & Hink1 & ->). injection Hink1 as <-.
  apply (for_points _ _ (vane_left_point _ _ _ _)) in Hv15.
  apply (for_points _ _ (vane_right_point _ _ _ _)) in Hv16.
  apply polygon_ok in Hv17 as (ink2 & Hink2 & ->). injection Hink2 as <-.
  apply (barb_pairs size (v9, Py.Int (size / 2), v7, v8)) in Hv18 as (bs & Hbs & ->).
  cbn in Hv19, Hv20, Hv21, Hv22, Hv23, Hv24.
  injection Hv19 as <-. injection Hv20 as <-. injection Hv21 as <-.
  injection Hv22 as <-. injection Hv23 as <-. injection Hv24 as <-.
  change (enumerate ?l) with [(0, (Py.Int (size / 2 + size / 4), Py.Int (size / 2 - size / 12)));
                              (1, (Py.Int (size / 2 + size / 6), Py.Int (size / 2 + size / 8)));
                              (2, (Py.Int (size / 2 + size / 3), Py.Int (size / 2 + size / 16)))]
    in Hv25.
  cbn [for_] in Hv25. inv_binds_as Hv25 d.
  apply dot_ok in Hd. apply dot_ok in Hd0. apply dot_ok in Hd1. subst.
  injection Hv25 as <-.
  apply polygon_ok in Hv34 as (ink3 & Hink3 & ->). injection Hink3 as <-.
  injection H as <-.
  exists cs, (v9, Py.Int (size / 2), v7, v8), [(v9, v10); (v11, v12)], v13,
    (v15 ++ rev v16), bs, [(v26, v29); (v30, v31); (v32, v33)].
  split; [exact Hsize|]. split; [exact Hcs|]. split.
  { unfold feather. rewrite floordiv_int by discriminate. cbn [bind].
    rewrite Hv7. cbn [bind]. rewrite Hv8. cbn [bind]. rewrite Hv9. reflexivity. }
  split; [exact Hbs|].
  split; [|split; [|split]]; [| | |].
  4:{ unfold icon_ops, Pil.draw. cbn [Pil.ops Pil.size Pil.background].
      rewrite <- !app_assoc. reflexivity. }
  - reflexivity.
  - rewrite length_app, length_rev, Hv15, Hv16. reflexivity.
  - reflexivity.
Qed.

Lemma gradient_color_alpha size y c : gradient_color size y = Ok c -> Pil.alpha c = 255.
Proof.
  unfold gradient_color. intros H. inv_binds H.
  injection Hv6 as <-. injection H as <-. reflexivity.
Qed.

Lemma gradient_color_top size : 0 < size -> gradient_color size 0 = Ok (76, 84, 200, 255).
Proof.
  intros Hsize. unfold gradient_color.
  assert (E : (0 / size)%py = Ok (Py.Flt zero)).
  { unfold lift2, pure_num; cbn [bind]. unfold Py.truediv, Py.int_true_divide.
    destruct (Z.eqb_spec size 0); [lia|].
    destruct (Z.ltb_spec size 0); [lia|]. reflexivity. }
  rewrite E. reflexivity.
Qed.

(** The rows of the gradient are the first drawing calls. *)
Lemma icon_row size cs shaft width vane bs tri y :
  Forall2 (fun y c => gradient_color size y = Ok c) (range size) cs ->
  0 <= y < size ->
  exists c, gradient_color size y = Ok c
    /\ icon_ops size cs shaft width vane bs tri !! Z.to_nat y = Some (gradient_line size y c).
Proof.
  intros Hcs Hy.
  assert (Hlook : range size !! Z.to_nat y = Some y).
  { unfold range, range2. rewrite lookup_seqZ_lt by lia. f_equal. lia. }
  destruct (Forall2_lookup_l _ _ _ _ _ Hcs Hlook) as (c & Hc & Hgc).
  exists c. split; [exact Hgc|].
  unfold icon_ops. rewrite lookup_app_l.
  - rewrite lookup_zip_with, Hlook, Hc. reflexivity.
  - apply Forall2_length in Hcs. rewrite length_zip_with_l_eq by exact Hcs.
    unfold range, range2. rewrite length_seqZ. lia.
Qed.

Lemma c2_check_sound size img :
  create_icon size = Ok img -> c2_check size img = true ->
  forall y, 0 <= y < size -> gradient_color size y = Ok (exact_color size y).
Proof.
  intros Hicon Hcheck y Hy.
  apply create_icon_ops in Hicon
    as (cs & f & shaft & width & vane & bs & tri & _ & Hcs & _ & _ & _ & _ & _ & ->).
  destruct (icon_row size cs shaft width vane bs tri y Hcs Hy) as (c & Hc & Hrow).
  unfold c2_check in Hcheck. rewrite forallb_forall in Hcheck.
  specialize (Hcheck (y, gradient_line size y c)).
  rewrite Hc. f_equal. simpl in Hcheck.
  eapply bool_decide_eq_true_1. apply Hcheck.
  apply list_elem_of_In, (list_elem_of_lookup_2 _ (Z.to_nat y)).
  rewrite lookup_zip_with. simpl Pil.ops. rewrite Hrow.
  unfold range, range2. rewrite lookup_seqZ_lt by lia. simpl. repeat f_equal. lia.
Qed.

(** *** What is painted in an ink *)

Lemma select_same ink l : omap (select ink) (map (fun s => Pil.Draw s ink) l) = l.
Proof.
  induction l as [|s l IH]; [reflexivity|].
  cbn -[select]. unfold select at 1.
  destruct (decide (ink = ink)); [|contradiction]. rewrite IH. reflexivity.
Qed.

Lemma select_other ink ink' l :
  ink' <> ink -> omap (select ink) (map (fun s => Pil.Draw s ink') l) = [].
Proof.
  intros Hne. induction l as [|s l IH]; [reflexivity|].
  cbn -[select]. unfold select at 1.
  destruct (decide (ink' = ink)); [contradiction | exact IH].
Qed.

Lemma select_rows ink size xs cs :
  Pil.alpha ink <> 255 ->
  Forall2 (fun y c => gradient_color size y = Ok c) xs cs ->
  omap (select ink) (zip_with (gradient_line size) xs cs) = [].
Proof.
  intros Hink H. induction H as [|y c xs cs Hc _ IH]; [reflexivity|].
  cbn -[select]. unfold select at 1, gradient_line.
  destruct (decide (c = ink)) as [->|_]; [|exact IH].
  apply gradient_color_alpha in Hc. contradiction.
Qed.

Lemma select_fixed ink m s1 s2 :
  Pil.alpha ink <> 255 ->
  omap (select ink)
    [Pil.PutAlpha m; Pil.Draw s1 white_ink; Pil.Draw s2 white_ink] = [].
Proof.
  intros H. cbn -[select]. unfold select.
  destruct (decide (white_ink = ink)) as [<-|_]; [contradiction H; reflexivity|].
  reflexivity.
Qed.

Lemma painted_barbs size cs shaft width vane bs tri :
  Forall2 (fun y c => gradient_color size y = Ok c) (range size) cs ->
  painted barb_ink (Pil.mkImage (size, size) transparent
                      (icon_ops size cs shaft width vane bs tri))
  = flat_map barb_lines bs.
Proof.
  intros Hcs. unfold painted, icon_ops. cbn [Pil.ops].
  rewrite !omap_app, (select_rows barb_ink size _ _ ltac:(discriminate) Hcs).
  rewrite select_fixed by discriminate.
  rewrite select_same, (select_other barb_ink dot_ink) by discriminate.
  cbn -[select]. unfold select.
  destruct (decide (white_ink = barb_ink)); [discriminate|].
  apply app_nil_r.
Qed.

Lemma painted_dots size cs shaft width vane bs tri :
  Forall2 (fun y c => gradient_color size y = Ok c) (range size) cs ->
  painted dot_ink (Pil.mkImage (size, size) transparent
                     (icon_ops size cs shaft width vane bs tri))
  = dots size.
Proof.
  intros Hcs. unfold painted, icon_ops. cbn [Pil.ops].
  rewrite !omap_app, (select_rows dot_ink size _ _ ltac:(discriminate) Hcs).
  rewrite select_fixed by discriminate.
  rewrite select_same, (select_other dot_ink barb_ink) by discriminate.
  cbn -[select dots]. unfold select.
  destruct (decide (white_ink = dot_ink)); [discriminate|].
  apply app_nil_r.
Qed.

Lemma rows_not_ellipses size xs cs :
  filter (fun s => is_ellipse s = true)
    (omap shape_of (zip_with (gradient_line size) xs cs)) = [].
Proof.
  revert cs. induction xs as [|y xs IH]; intros [|c cs]; try reflexivity.
  cbn -[shape_of]. unfold shape_of at 1, gradient_line.
  rewrite filter_cons. simpl. apply IH.
Qed.

Lemma lines_not_ellipses ink bs :
  filter (fun s => is_ellipse s = true)
    (omap shape_of (map (fun s => Pil.Draw s ink) (flat_map barb_lines bs))) = [].
Proof.
  induction bs as [|b bs IH]; [reflexivity|].
  cbn -[shape_of]. unfold shape_of at 1 2.
  rewrite !filter_cons. simpl. exact IH.
Qed.

Lemma shapes_drawn ink l : omap shape_of (map (fun s => Pil.Draw s ink) l) = l.
Proof. induction l as [|s l IH]; [reflexivity|]. cbn. f_equal. exact IH. Qed.

Lemma ellipses_dots size cs shaft width vane bs tri :
  filter (fun s => is_ellipse s = true)
    (shapes (Pil.mkImage (size, size) transparent
               (icon_ops size cs shaft width vane bs tri)))
  = dots size.
Proof.
  unfold shapes, icon_ops. cbn [Pil.ops].
  rewrite !omap_app, !filter_app, rows_not_ellipses, lines_not_ellipses.
  rewrite shapes_drawn. reflexivity.
Qed.

Lemma getpixel_defined {R : Pil.Rasteriser} img x y :
  is_Some (Pil.getpixel img x y)
  <-> 0 <= x < (Pil.size img).1 /\ 0 <= y < (Pil.size img).2.
Proof.
  unfold Pil.getpixel, Pil.in_image. split.
  - intros [p Hp]. destruct (_ && _) eqn:E; [|discriminate].
    rewrite !andb_true_iff, !Z.leb_le, !Z.ltb_lt in E. lia.
  - intros H. replace (_ && _) with true; [eexists; reflexivity|].
    symmetry. rewrite !andb_true_iff, !Z.leb_le, !Z.ltb_lt. lia.
Qed.

(** ** The icon at the sizes of the driver *)

(** Every size of the list renders, and the rendering passes the checks of
    [icon_check]: one evaluation of [create_icon] per size, for all the
    claims below. *)
Lemma icons_checked :
  forallb (fun size => match create_icon size with
                       | Ok img => icon_check size img
                       | Raise _ => false
                       end) sizes = true.
Proof. vm_compute. reflexivity. Qed.

Lemma icon_checked size :
  In size sizes ->
  exists img, create_icon size = Ok img
    /\ c1_check size img = true /\ c2_check size img = true /\ c6_check size img = true.
Proof.
  intros Hin. pose proof icons_checked as H. rewrite forallb_forall in H.
  specialize (H size Hin). destruct (create_icon size) as [img|]; [|discriminate].
  unfold icon_check in H. rewrite !andb_true_iff in H. exists img. tauto.
Qed.

(** C1, as amended.  For every size of the fixed list, [create_icon size]
    returns an image of exactly size x size pixels; its alpha is 0 at every
    pixel outside the rounded-rectangle region; inside the region its alpha
    is 255 except where a barb was drawn last (alpha 180) or a decorative
    dot was drawn last (alpha 220); at the exact centre it is 255.  This
    holds for every rasteriser. *)
Theorem C1_alpha_channel {R : Pil.Rasteriser} :
  Forall (fun size =>
    exists img, create_icon size = Ok img
      /\ Pil.size img = (size, size)
      /\ (forall x y, is_Some (Pil.getpixel img x y) <-> 0 <= x < size /\ 0 <= y < size)
      /\ (forall x y p, Pil.getpixel img x y = Some p ->
            (Pil.covers (region size) x y = false -> Pil.alpha p = 0)
            /\ (Pil.covers (region size) x y = true ->
                Pil.alpha p = 255
                \/ (Pil.alpha p = 180
                    /\ exists s, In s (painted barb_ink img) /\ Pil.covers s x y = true)
                \/ (Pil.alpha p = 220
                    /\ exists s, In s (painted dot_ink img) /\ Pil.covers s x y = true)))
      /\ (exists p, Pil.getpixel img (size / 2) (size / 2) = Some p
                    /\ Pil.covers (region size) (size / 2) (size / 2) = true
                    /\ Pil.alpha p = 255)) sizes.
Proof.
  apply Forall_forall. intros size Hin. apply list_elem_of_In in Hin.
  destruct (icon_checked size Hin) as (img & Hicon & H & _ & _).
  apply c1_check_sound in H as (Hsize & Hpix & Hcentre).
  exists img. split; [exact Hicon|]. split; [exact Hsize|].
  split; [|split; assumption].
  intros x y. rewrite getpixel_defined, Hsize. reflexivity.
Qed.

(** The second decorative dot of the 16-pixel icon is drawn in alpha 220
    and nothing is drawn over its centre: for every rasteriser the pixel
    (10, 10) lies in the region and is not opaque. *)
Lemma dot_not_opaque {R : Pil.Rasteriser} :
  exists img p, create_icon 16 = Ok img
    /\ Pil.covers (region 16) 10 10 = true
    /\ Pil.getpixel img 10 10 = Some p
    /\ Pil.alpha p = 220.
Proof.
  assert (Hicon : exists pre, create_icon 16 = Ok (Pil.mkImage (16, 16) transparent
            (pre ++ [Pil.Draw (circle 10 10 1) dot_ink;
                     Pil.Draw (circle 13 9 1) dot_ink;
                     Pil.Draw (Pil.Polygon [(Py.Int 11, Py.Int 3); (Py.Int 10, Py.Int 7);
                                            (Py.Int 12, Py.Int 7)]) white_ink]))).
  { exists (firstn 32 (match create_icon 16 with Ok i => Pil.ops i | Raise _ => [] end)).
    vm_compute. reflexivity. }
  destruct Hicon as (pre & Hicon).
  eexists _, _. split; [exact Hicon|]. split; [|split].
  - apply region_band; change (16 / 8) with 2; lia.
  - unfold Pil.getpixel. simpl Pil.size. simpl Pil.in_image. cbv iota. reflexivity.
  - simpl Pil.ops. rewrite fold_left_app. simpl.
    rewrite (Pil.ellipse_centre 10 10 1) by lia.
    destruct (Pil.covers (Pil.Polygon _) 10 10) eqn:Htri.
    { apply Pil.covers_in_bbox in Htri. discriminate. }
    destruct (Pil.covers (circle 13 9 1) 10 10) eqn:Hdot.
    { apply Pil.covers_in_bbox in Hdot. discriminate. }
    reflexivity.
Qed.

(** C1, the counterexample: in the 16-pixel icon the pixel (10, 10), the
    centre of the second decorative dot, lies inside the rounded-rectangle
    region and has alpha 220, not 255. *)
Lemma C1_counterexample :
  exists img p, create_icon 16 = Ok img
    /\ Pil.covers (Rasteriser := geometric) (region 16) 10 10 = true
    /\ Pil.getpixel (R := geometric) img 10 10 = Some p
    /\ Pil.alpha p = 220.
Proof. exact dot_not_opaque. Qed.

(** ** The gradient *)

Lemma bottom_rows :
  map (fun size => exact_color size (size - 1)) sizes
  = [(107, 113, 228, 255); (108, 114, 229, 255); (109, 114, 229, 255);
     (109, 114, 229, 255); (109, 114, 229, 255); (109, 114, 229, 255);
     (109, 114, 229, 255)].
Proof. reflexivity. Qed.

(** C2, as amended.  For every positive size, row [y] of the gradient is
    drawn in the colour whose channels are [int(e0 * (1 - ratio) + e1 *
    ratio)], [ratio = y / size], between the endpoints (76, 84, 200) and
    (110, 115, 230); the top row is the first endpoint exactly.  For the
    sizes of the fixed list the channels are the integer part of the exact
    interpolation, and the bottom row, the interpolation at ratio
    [(size - 1) / size], stops short of the second endpoint:
    (107, 113, 228) at size 16, (108, 114, 229) at size 32, (109, 114, 229)
    from size 64 on. *)
Theorem C2_gradient :
  (forall size img, 0 < size -> create_icon size = Ok img ->
     (forall y, 0 <= y < size ->
        exists c, gradient_color size y = Ok c
          /\ Pil.ops img !! Z.to_nat y = Some (gradient_line size y c))
     /\ gradient_color size 0 = Ok (76, 84, 200, 255))
  /\ Forall (fun size =>
       forall y, 0 <= y < size -> gradient_color size y = Ok (exact_color size y)) sizes
  /\ map (fun size => gradient_color size (size - 1)) sizes
     = map Ok [(107, 113, 228, 255); (108, 114, 229, 255); (109, 114, 229, 255);
               (109, 114, 229, 255); (109, 114, 229, 255); (109, 114, 229, 255);
               (109, 114, 229, 255)].
Proof.
  assert (Hexact : Forall (fun size =>
            forall y, 0 <= y < size -> gradient_color size y = Ok (exact_color size y)) sizes).
  { apply Forall_forall. intros size Hin. apply list_elem_of_In in Hin.
    destruct (icon_checked size Hin) as (img & Hicon & _ & H & _).
    exact (c2_check_sound size img Hicon H). }
  split; [|split; [exact Hexact|]].
  - intros size img Hsize Hicon. split; [|apply gradient_color_top, Hsize].
    apply create_icon_ops in Hicon
      as (cs & f & shaft & width & vane & bs & tri & _ & Hcs & _ & _ & _ & _ & _ & ->).
    intros y Hy. apply icon_row; assumption.
  - rewrite <- bottom_rows, map_map. apply map_ext_in. intros size Hin.
    rewrite Forall_forall in Hexact. apply Hexact; [apply list_elem_of_In, Hin|].
    unfold sizes in Hin. simpl in Hin. lia.
Qed.

(** C2, a use of the theorem: the 16-pixel icon. *)
Lemma C2_witness :
  exists img, create_icon 16 = Ok img
    /\ (forall y, 0 <= y < 16 ->
          exists c, gradient_color 16 y = Ok c
            /\ Pil.ops img !! Z.to_nat y = Some (gradient_line 16 y c))
    /\ gradient_color 16 0 = Ok (76, 84, 200, 255).
Proof.
  destruct (icon_checked 16) as (img & Hicon & _); [left; reflexivity|].
  exists img. split; [exact Hicon|].
  apply (proj1 C2_gradient 16 img); [lia | exact Hicon].
Defined.

(** C2, the counterexample: the bottom row of the 16-pixel icon, row 15, is
    drawn in (107, 113, 228), three, two and two units from the second
    endpoint (110, 115, 230); and the only row of the 1-pixel icon is the
    first endpoint. *)
Lemma C2_counterexample :
  (exists img, create_icon 16 = Ok img
     /\ Pil.ops img !! 15%nat = Some (gradient_line 16 (16 - 1) (107, 113, 228, 255))
     /\ ~ within_rounding (107, 113, 228, 255) (110, 115, 230))
  /\ (exists img, create_icon 1 = Ok img
        /\ Pil.ops img !! 0%nat = Some (gradient_line 1 (1 - 1) (76, 84, 200, 255))
        /\ ~ within_rounding (76, 84, 200, 255) (110, 115, 230)).
Proof.
  split.
  - exists (match create_icon 16 with Ok i => i | Raise _ => Pil.mkImage (0, 0) transparent [] end).
    split; [vm_compute; reflexivity|]. split; [vm_compute; reflexivity|].
    unfold within_rounding. lia.
  - exists (match create_icon 1 with Ok i => i | Raise _ => Pil.mkImage (0, 0) transparent [] end).
    split; [vm_compute; reflexivity|]. split; [vm_compute; reflexivity|].
    unfold within_rounding. lia.
Qed.

(** ** The decorative dots *)

(** For every size, the ellipses that [create_icon] draws are the three
    dots, and nothing else is drawn in their ink. *)
Lemma create_icon_dots size img :
  create_icon size = Ok img ->
  filter (fun s => is_ellipse s = true) (shapes img) = dots size
  /\ painted dot_ink img = dots size.
Proof.
  intros Hicon. apply create_icon_ops in Hicon
    as (cs & f & shaft & width & vane & bs & tri & _ & Hcs & _ & _ & _ & _ & _ & ->).
  split; [apply ellipses_dots | apply painted_dots, Hcs].
Qed.

Lemma dot_radii_sizes :
  Forall (fun size =>
    exists r0 r1 r2, dot_radii size = [r0; r1; r2]
      /\ r2 <= r1 < r0
      /\ (128 <= size -> r2 < r1)
      /\ (size <= 64 -> r0 = 2 /\ r1 = 1 /\ r2 = 1)) sizes.
Proof.
  unfold sizes. repeat apply List.Forall_cons; [.. | apply List.Forall_nil].
  - exists 2, 1, 1. split; [reflexivity | lia].
  - exists 2, 1, 1. split; [reflexivity | lia].
  - exists 2, 1, 1. split; [reflexivity | lia].
  - exists 5, 3, 2. split; [reflexivity | lia].
  - exists 10, 7, 5. split; [reflexivity | lia].
  - exists 20, 14, 11. split; [reflexivity | lia].
  - exists 40, 29, 22. split; [reflexivity | lia].
Qed.

(** C5, as amended.  For every size of the fixed list (the 2x variants are
    sizes of the list too), [create_icon] draws exactly three filled
    circles, at the offsets [(size // 4, - size // 12)], [(size // 6,
    size // 8)] and [(size // 3, size // 16)] from the centre, of radii
    [max(2, size // 25) > max(1, size // 35) >= max(1, size // 45)]: the
    three radii are pairwise distinct from size 128 on, and at the sizes 16,
    32 and 64 they are 2, 1 and 1, the medium and the smallest dot alike. *)
Theorem C5_dots :
  Forall (fun size =>
    exists img, create_icon size = Ok img
      /\ filter (fun s => is_ellipse s = true) (shapes img) = dots size
      /\ painted dot_ink img = dots size
      /\ length (dots size) = 3%nat
      /\ exists r0 r1 r2, dot_radii size = [r0; r1; r2]
           /\ r2 <= r1 < r0
           /\ (128 <= size -> r2 < r1)
           /\ (size <= 64 -> r0 = 2 /\ r1 = 1 /\ r2 = 1)) sizes.
Proof.
  pose proof dot_radii_sizes as Hradii. rewrite Forall_forall in Hradii.
  apply Forall_forall. intros size Hin. specialize (Hradii size Hin).
  apply list_elem_of_In in Hin.
  destruct (icon_checked size Hin) as (img & Hicon & _).
  destruct (create_icon_dots size img Hicon) as [Hell Hpainted].
  exists img. repeat split; try assumption.
Qed.

(** C5, the counterexample: the dots of the 16-pixel icon have the radii 2,
    1 and 1; the medium and the smallest are not distinct. *)
Lemma C5_counterexample :
  exists img, create_icon 16 = Ok img
    /\ painted dot_ink img = [circle 12 7 2; circle 10 10 1; circle 13 9 1]
    /\ dot_radii 16 = [2; 1; 1].
Proof.
  destruct (icon_checked 16) as (img & Hicon & _); [left; reflexivity|].
  exists img. split; [exact Hicon|]. split; [|reflexivity].
  rewrite (proj2 (create_icon_dots 16 img Hicon)). reflexivity.
Qed.

(** ** The barbs *)

Lemma barb_lines_horizontal bs : Forall is_horizontal (flat_map barb_lines bs).
Proof.
  induction bs as [|b bs IH]; simpl; [constructor|].
  repeat constructor. exact IH.
Qed.

Lemma c6_check_sound size img :
  c6_check size img = true ->
  rise_and_fall (barb_lengths img).1 = true
  /\ rise_and_fall (barb_lengths img).2 = true
  /\ (32 <= size ->
      third_exceeds_first (barb_lengths img).1 = true
      /\ third_exceeds_first (barb_lengths img).2 = true).
Proof.
  unfold c6_check. destruct (barb_lengths img) as [ls rs]. simpl.
  rewrite !andb_true_iff, orb_true_iff, andb_true_iff, Z.ltb_lt.
  intros [[H1 H2] H3]. split; [exact H1|]. split; [exact H2|].
  intros Hsize. destruct H3 as [H3|[H3 H4]]; [lia | split; assumption].
Qed.

(** C6, as amended.  For every positive size, [create_icon] draws exactly
    six pairs of horizontal barbs, in the ink (76, 84, 200, 180), at the
    progress points [i / 7], [i = 1 .. 6]: the pair at [i] lies at
    [feather_y - feather_height // 2 + feather_height * progress * 0.8],
    its left barb [int(feather_width * sin(progress * pi) * 0.5)] long and
    its right barb [int(feather_width * sin(progress * pi) * 0.3)
    + feather_height // 12 - feather_height // 24] long.  The lengths follow
    the sine of the progress: for the sizes of the fixed list they grow up
    to the two middle pairs and mirror themselves after, and from size 32
    on the third pair is longer than the first. *)
Theorem C6_barbs :
  (forall size img, 0 < size -> create_icon size = Ok img ->
     exists f bs,
       feather size = Ok f
       /\ Forall2 (fun i b => barbs_at size f i = Ok b) [1; 2; 3; 4; 5; 6] bs
       /\ painted barb_ink img = flat_map barb_lines bs
       /\ length (painted barb_ink img) = 12%nat
       /\ Forall is_horizontal (painted barb_ink img))
  /\ Forall (fun size =>
       exists img, create_icon size = Ok img
         /\ rise_and_fall (barb_lengths img).1 = true
         /\ rise_and_fall (barb_lengths img).2 = true
         /\ (32 <= size ->
             third_exceeds_first (barb_lengths img).1 = true
             /\ third_exceeds_first (barb_lengths img).2 = true)) sizes.
Proof.
  split.
  - intros size img _ Hicon. apply create_icon_ops in Hicon
      as (cs & f & shaft & width & vane & bs & tri & _ & Hcs & Hf & Hbs & _ & _ & _ & ->).
    exists f, bs. rewrite (painted_barbs _ _ _ _ _ _ _ Hcs).
    split; [exact Hf|]. split; [exact Hbs|]. split; [reflexivity|].
    split; [|apply barb_lines_horizontal].
    apply Forall2_length in Hbs. simpl in Hbs.
    do 7 (destruct bs as [|? bs]; try discriminate). reflexivity.
  - apply Forall_forall. intros size Hin. apply list_elem_of_In in Hin.
    destruct (icon_checked size Hin) as (img & Hicon & _ & _ & H).
    exists img. split; [exact Hicon|]. apply c6_check_sound, H.
Qed.

(** C6, a use of the theorem: the 16-pixel icon. *)
Lemma C6_witness :
  exists img f bs,
    create_icon 16 = Ok img
    /\ feather 16 = Ok f
    /\ Forall2 (fun i b => barbs_at 16 f i = Ok b) [1; 2; 3; 4; 5; 6] bs
    /\ painted barb_ink img = flat_map barb_lines bs
    /\ length (painted barb_ink img) = 12%nat
    /\ Forall is_horizontal (painted barb_ink img).
Proof.
  destruct (icon_checked 16) as (img & Hicon & _); [left; reflexivity|].
  destruct (proj1 C6_barbs 16 img) as (f & bs & H); [lia | exact Hicon |].
  exists img, f, bs. split; [exact Hicon | exact H].
Defined.

(** C6, the counterexample: in the 64-pixel icon the left barbs are 2, 4,
    5, 5, 4 and 2 pixels long and the right ones 2, 3, 4, 4, 3 and 2: the
    second pair is longer than the first. *)
Lemma C6_counterexample :
  exists img, create_icon 64 = Ok img
    /\ barb_lengths img = ([2; 4; 5; 5; 4; 2], [2; 3; 4; 4; 3; 2])
    /\ non_increasing [2; 4; 5; 5; 4; 2] = false
    /\ non_increasing [2; 3; 4; 4; 3; 2] = false.
Proof.
  exists (match create_icon 64 with Ok i => i | Raise _ => Pil.mkImage (0, 0) transparent [] end).
  split; [vm_compute; reflexivity|]. split; [vm_compute; reflexivity|].
  split; reflexivity.
Qed.

(** ** Small and degenerate sizes *)

(** C7.  [create_icon 16] returns an image, 16 x 16 pixels, every pixel
    of it defined: the corner radius [16 // 8] is 2, the mask is the
    rounded rectangle of that radius, the shaft width [max(2, 16 // 40)] is
    2 and the shaft is drawn with it, from (6, 12.0) to (7.0, 4.0). *)
Theorem C7_create_icon_16 :
  (16 // 8)%py = Ok (Py.Int 2)
  /\ max_ 2 (16 // 40)%py = Ok (Py.Int 2)
  /\ exists img, create_icon 16 = Ok img
       /\ Pil.size img = (16, 16)
       /\ length (Pil.ops img) = 35%nat
       /\ Pil.ops img !! 16%nat
          = Some (Pil.PutAlpha
                    (Pil.mkL (16, 16) 0
                       [(Pil.RoundedRectangle (Py.Int 0, Py.Int 0, Py.Int 16, Py.Int 16)
                           (Py.Int 2), 255)]))
       /\ Pil.ops img !! 17%nat
          = Some (Pil.Draw (Pil.Line [(Py.Int 6, Py.Flt 12); (Py.Flt 7, Py.Flt 4)] (Py.Int 2))
                    white_ink)
       /\ forall (R : Pil.Rasteriser) x y,
            0 <= x < 16 -> 0 <= y < 16 -> is_Some (Pil.getpixel img x y).
Proof.
  split; [reflexivity|]. split; [reflexivity|].
  exists (match create_icon 16 with Ok i => i | Raise _ => Pil.mkImage (0, 0) transparent [] end).
  split; [vm_compute; reflexivity|].
  assert (Hsize : Pil.size (match create_icon 16 with
                            | Ok i => i
                            | Raise _ => Pil.mkImage (0, 0) transparent []
                            end) = (16, 16)) by (vm_compute; reflexivity).
  split; [exact Hsize|].
  split; [vm_compute; reflexivity|]. split; [vm_compute; reflexivity|].
  split; [vm_compute; reflexivity|].
  intros R x y Hx Hy. apply getpixel_defined. rewrite Hsize. simpl. lia.
Qed.

Lemma create_icon_negative size : size < 0 -> create_icon size = Raise ValueError.
Proof.
  intros H. unfold create_icon, Pil.new_RGBA, Pil.check_size. simpl.
  destruct (Z.ltb_spec size 0); [reflexivity | lia].
Qed.

Lemma create_icon_0 :
  exists img, create_icon 0 = Ok img
    /\ Pil.size img = (0, 0)
    /\ Pil.ops img !! 0%nat = Some (Pil.PutAlpha (mask_of 0))
    /\ shapes img
       = [Pil.Line [(Py.Int 0, Py.Flt 0); (Py.Flt 0, Py.Flt 0)] (Py.Int 2);
          Pil.Polygon (replicate 8 (Py.Int 0, Py.Flt 0) ++ replicate 8 (Py.Flt 0, Py.Flt 0))]
         ++ flat_map (fun _ : nat =>
                        [Pil.Line [(Py.Int 0, Py.Flt 0); (Py.Int 0, Py.Flt 0)] (Py.Int 1);
                         Pil.Line [(Py.Flt 0, Py.Flt 0); (Py.Flt 0, Py.Flt 0)] (Py.Int 1)])
                     (seq 0 6)
         ++ [circle 0 0 2; circle 0 0 1; circle 0 0 1;
             Pil.Polygon [(Py.Int 0, Py.Int (-3)); (Py.Int (-1), Py.Int 1);
                          (Py.Int 1, Py.Int 1)]].
Proof.
  exists (match create_icon 0 with Ok i => i | Raise _ => Pil.mkImage (1, 1) transparent [] end).
  repeat split; vm_compute; reflexivity.
Qed.

(** C8, as amended.  [create_icon] has no guard on its size.  At size 0 it
    returns an image without pixels: no row is drawn, the feather, the
    barbs and the dots collapse on the origin.  At a negative size no
    image is returned: the imaging library's size check refuses the
    negative width and height, and the [ValueError] it raises leaves
    [create_icon], which handles no error. *)
Theorem C8_non_positive_size (size : Z) :
  size <= 0 ->
  (size = 0
   /\ exists img, create_icon size = Ok img
        /\ Pil.size img = (0, 0)
        /\ Pil.ops img !! 0%nat = Some (Pil.PutAlpha (mask_of 0))
        /\ forall (R : Pil.Rasteriser) x y, Pil.getpixel img x y = None)
  \/ (size < 0 /\ create_icon size = Raise ValueError).
Proof.
  intros Hsize. destruct (Z.eq_dec size 0) as [->|Hne].
  - left. split; [reflexivity|].
    destruct create_icon_0 as (img & Hicon & Hsz & Hops & _).
    exists img. repeat split; try assumption.
    intros R x y. destruct (Pil.getpixel img x y) eqn:E; [|reflexivity].
    assert (Hsome : is_Some (Pil.getpixel img x y)) by (rewrite E; eauto).
    apply getpixel_defined in Hsome. rewrite Hsz in Hsome. simpl in Hsome. lia.
  - right. split; [lia|]. apply create_icon_negative. lia.
Qed.

(** C8, two uses of the theorem: the sizes 0 and -1. *)
Lemma C8_witness :
  (exists img, create_icon 0 = Ok img /\ Pil.size img = (0, 0))
  /\ create_icon (-1) = Raise ValueError.
Proof.
  split.
  - destruct (C8_non_positive_size 0) as [(_ & img & H & Hsz & _)|[H _]]; [lia | | lia].
    exists img. split; assumption.
  - destruct (C8_non_positive_size (-1)) as [[H _]|[_ H]]; [lia | discriminate | exact H].
Defined.

(** C8, the counterexample: at size -1, a non-positive size, no image is
    returned; the call ends in [ValueError]. *)
Lemma C8_counterexample :
  -1 <= 0 /\ create_icon (-1) = Raise ValueError
  /\ ~ exists img, create_icon (-1) = Ok img.
Proof.
  split; [lia|]. split; [reflexivity|]. intros [img H]. discriminate H.
Qed.

(** ** The menu-bar icon *)

(** C10.  For every positive size, [create_menu_bar_icon] starts from a
    fully transparent image and draws, in opaque white, the shaft line,
    the vane polygon of 12 points and two dots of one radius, and nothing
    else: no gradient, no mask.  So a pixel that none of these four shapes
    covers is transparent, alpha 0.  For every rasteriser. *)
Theorem C10_menu_bar_icon {R : Pil.Rasteriser} (size : Z) (img : Pil.Image) :
  0 < size ->
  create_menu_bar_icon size = Ok img ->
  Pil.size img = (size, size)
  /\ Pil.background img = transparent
  /\ (exists shaft width vane,
        length shaft = 2%nat /\ length vane = 12%nat
        /\ Pil.ops img
           = Pil.Draw (Pil.Line shaft width) white_ink
             :: Pil.Draw (Pil.Polygon vane) white_ink
             :: map (fun s => Pil.Draw s white_ink) (menu_dots size))
  /\ (exists x0 y0 x1 y1 r, menu_dots size = [circle x0 y0 r; circle x1 y1 r])
  /\ forall x y p,
       Pil.getpixel img x y = Some p ->
       (forall s, In s (shapes img) -> Pil.covers s x y = false) ->
       p = transparent /\ Pil.alpha p = 0.
Proof.
  intros _ Hicon.
  apply create_menu_bar_icon_ops in Hicon as (shaft & width & vane & Hshaft & Hvane & ->).
  split; [reflexivity|]. split; [reflexivity|].
  split; [exists shaft, width, vane; auto|].
  split; [eexists _, _, _, _, _; reflexivity|].
  intros x y p Hp Hnone. apply getpixel_some in Hp as [_ ->].
  rewrite fold_unpainted; [split; reflexivity|].
  simpl Pil.ops. unfold menu_dots.
  repeat constructor; simpl; apply Hnone; unfold shapes, menu_dots; simpl; auto.
Qed.

Lemma menu_icons_render :
  forallb (fun size => is_ok (create_menu_bar_icon size)) [16; 32; 48] = true.
Proof. vm_compute. reflexivity. Qed.

(** C10, a use of the theorem: the menu-bar icon of 16 pixels, under the
    geometric rasteriser. *)
Lemma C10_witness :
  exists img, create_menu_bar_icon 16 = Ok img
    /\ Pil.ops img
       = Pil.Draw (Pil.Line [(Py.Int 6, Py.Flt 12); (Py.Flt 7, Py.Flt 4)] (Py.Int 1)) white_ink
         :: Pil.Draw (Pil.Polygon
                        [(Py.Int 6, Py.Flt 4); (Py.Int 5, Py.Flt 5.8);
                         (Py.Int 5, Py.Flt 7.6); (Py.Int 5, Py.Flt 9.3999999999999986);
                         (Py.Int 5, Py.Flt 11.2); (Py.Int 6, Py.Flt 13);
                         (Py.Flt 6, Py.Flt 13); (Py.Flt 6, Py.Flt 11.2);
                         (Py.Flt 6, Py.Flt 9.3999999999999986); (Py.Flt 6, Py.Flt 7.6);
                         (Py.Flt 6, Py.Flt 5.8); (Py.Flt 6, Py.Flt 4)]) white_ink
         :: map (fun s => Pil.Draw s white_ink) [circle 12 7 1; circle 11 10 1]
    /\ forall x y p,
         Pil.getpixel (R := geometric) img x y = Some p ->
         (forall s, In s (shapes img) -> Pil.covers s x y = false) ->
         p = transparent /\ Pil.alpha p = 0.
Proof.
  destruct (is_ok_true (create_menu_bar_icon 16)) as [img Hicon]; [vm_compute; reflexivity|].
  exists img. split; [exact Hicon|]. split.
  - assert (E : Ok img = create_menu_bar_icon 16) by (symmetry; exact Hicon).
    vm_compute in E. injection E as ->. reflexivity.
  - apply (C10_menu_bar_icon 16 img); [lia | exact Hicon].
Defined.

(** ** Every pixel of the icon, at every size *)

Lemma after_putalpha_draws pre m post :
  forallb is_draw pre = true ->
  after_putalpha (pre ++ Pil.PutAlpha m :: post) = Some (m, post).
Proof.
  induction pre as [|o pre IH]; [reflexivity|]. simpl.
  destruct o; [|discriminate]. exact IH.
Qed.

Lemma rows_draws size xs cs :
  forallb is_draw (zip_with (gradient_line size) xs cs) = true.
Proof.
  revert cs. induction xs as [|y xs IH]; intros [|c cs]; try reflexivity.
  simpl. apply IH.
Qed.

Lemma draws_of ink l : forallb is_draw (map (fun s => Pil.Draw s ink) l) = true.
Proof. induction l; [reflexivity | assumption]. Qed.

Lemma feather_ops_inks size shaft width vane bs tri s ink :
  In (Pil.Draw s ink) (feather_ops size shaft width vane bs tri) ->
  ink = white_ink \/ ink = barb_ink \/ ink = dot_ink.
Proof.
  unfold feather_ops. rewrite !in_app_iff, !in_map_iff. simpl.
  intros [[H|[H|[]]]|[(s' & H & _)|[(s' & H & _)|[H|[]]]]]; injection H as _ <-; auto.
Qed.

Lemma feather_ops_draws size shaft width vane bs tri :
  forallb is_draw (feather_ops size shaft width vane bs tri) = true.
Proof.
  unfold feather_ops. rewrite !forallb_app, !draws_of. reflexivity.
Qed.

Lemma feather_ops_length size shaft width vane bs tri :
  length bs = 6%nat -> length (feather_ops size shaft width vane bs tri) = 18%nat.
Proof.
  intros H. do 7 (destruct bs as [|? bs]; try discriminate). reflexivity.
Qed.

(** X1.  At every size at which [create_icon] returns, and for every
    rasteriser, the image is size x size and each of its pixels either has
    the alpha of the mask, 255 where the rounded rectangle covers it and 0
    elsewhere, or is exactly the ink of one of the 18 shapes drawn after the
    mask that covers it: white, the barbs' ink or the dots'.  So its alpha
    is 0, 180, 220 or 255. *)
Theorem icon_pixel {R : Pil.Rasteriser} (size : Z) (img : Pil.Image) (x y : Z)
    (p : Pil.rgba) :
  create_icon size = Ok img ->
  Pil.getpixel img x y = Some p ->
  Pil.size img = (size, size)
  /\ (exists post,
        after_putalpha (Pil.ops img) = Some (mask_of size, post)
        /\ length post = 18%nat
        /\ (Pil.alpha p = (if Pil.covers (region size) x y then 255 else 0)
            \/ exists s ink,
                 In (Pil.Draw s ink) post /\ Pil.covers s x y = true /\ p = ink
                 /\ (ink = white_ink \/ ink = barb_ink \/ ink = dot_ink)))
  /\ In (Pil.alpha p) [0; 180; 220; 255].
Proof.
  intros Hicon Hp. apply create_icon_ops in Hicon
    as (cs & f & shaft & width & vane & bs & tri & _ & Hcs & _ & Hbs & _ & _ & _ & ->).
  apply getpixel_some in Hp as [_ ->]. cbn [Pil.ops Pil.background Pil.size].
  split; [reflexivity|].
  change (icon_ops size cs shaft width vane bs tri)
    with (zip_with (gradient_line size) (range size) cs
          ++ Pil.PutAlpha (mask_of size) :: feather_ops size shaft width vane bs tri).
  set (post := feather_ops size shaft width vane bs tri).
  rewrite fold_left_app. cbn [fold_left Pil.apply_op]. rewrite mask_getpixel.
  set (p0 := Pil.set_alpha _ _).
  assert (Hp0 : Pil.alpha p0 = if Pil.covers (region size) x y then 255 else 0)
    by apply alpha_set_alpha.
  destruct (fold_draws x y post p0 (feather_ops_draws _ _ _ _ _ _))
    as [E|(s & ink & Hin & Hc & E)]; rewrite E.
  - split.
    + exists post. split; [apply after_putalpha_draws, rows_draws|].
      split; [|left; exact Hp0].
      apply feather_ops_length. apply Forall2_length in Hbs. rewrite <- Hbs. reflexivity.
    + rewrite Hp0. destruct (Pil.covers (region size) x y); simpl; auto.
  - pose proof (feather_ops_inks _ _ _ _ _ _ _ _ Hin) as Hink. split.
    + exists post. split; [apply after_putalpha_draws, rows_draws|].
      split; [|right; exists s, ink; auto].
      apply feather_ops_length. apply Forall2_length in Hbs. rewrite <- Hbs. reflexivity.
    + destruct Hink as [-> | [-> | ->]]; simpl; auto.
Qed.

Lemma icon_pixel_witness :
  exists img p,
    create_icon 16 = Ok img /\ Pil.getpixel (R := geometric) img 0 0 = Some p
    /\ In (Pil.alpha p) [0; 180; 220; 255].
Proof.
  destruct (icon_checked 16) as (img & Hicon & _); [left; reflexivity|].
  assert (Hsome : is_Some (Pil.getpixel (R := geometric) img 0 0)).
  { apply getpixel_defined. apply create_icon_ops in Hicon
      as (cs & f & shaft & width & vane & bs & tri & _ & _ & _ & _ & _ & _ & _ & ->).
    simpl. lia. }
  destruct Hsome as [p Hp]. exists img, p. split; [exact Hicon|]. split; [exact Hp|].
  apply (icon_pixel 16 img 0 0 p Hicon Hp).
Defined.

(** ** The menu-bar icon, pixel by pixel *)

Section OneInk.
Context {R : Pil.Rasteriser}.

(** Shapes drawn in one ink leave a pixel as it was or in that ink, the
    latter exactly when one of them covers it. *)
Lemma fold_one_ink x y ink l p :
  fold_left (Pil.apply_op x y) (map (fun s => Pil.Draw s ink) l) p
  = if existsb (fun s => Pil.covers s x y) l then ink else p.
Proof.
  revert p. induction l as [|s l IH]; intros p; [reflexivity|].
  cbn [map fold_left existsb Pil.apply_op]. rewrite IH.
  destruct (Pil.covers s x y); simpl; [|reflexivity].
  destruct (existsb _ l); reflexivity.
Qed.

End OneInk.

(** X2.  At every size at which [create_menu_bar_icon] returns, and for
    every rasteriser: a pixel of the image is opaque white if one of the
    four shapes covers it, and fully transparent if none does; there is no
    third colour and no partial transparency. *)
Theorem menu_icon_pixel {R : Pil.Rasteriser} (size : Z) (img : Pil.Image) (x y : Z)
    (p : Pil.rgba) :
  create_menu_bar_icon size = Ok img ->
  Pil.getpixel img x y = Some p ->
  length (shapes img) = 4%nat
  /\ p = (if existsb (fun s => Pil.covers s x y) (shapes img) then white_ink else transparent)
  /\ (p = white_ink <-> exists s, In s (shapes img) /\ Pil.covers s x y = true).
Proof.
  intros Hicon Hp.
  apply create_menu_bar_icon_ops in Hicon as (shaft & width & vane & _ & _ & ->).
  apply getpixel_some in Hp as [_ ->]. cbn [Pil.ops Pil.background].
  set (l := Pil.Line shaft width :: Pil.Polygon vane :: menu_dots size).
  assert (Hshapes : shapes (Pil.mkImage (size, size) transparent
                              (map (fun s => Pil.Draw s white_ink) l)) = l).
  { unfold shapes. cbn [Pil.ops]. apply shapes_drawn. }
  change (Pil.Draw (Pil.Line shaft width) white_ink
          :: Pil.Draw (Pil.Polygon vane) white_ink
          :: map (fun s => Pil.Draw s white_ink) (menu_dots size))
    with (map (fun s => Pil.Draw s white_ink) l).
  rewrite Hshapes, fold_one_ink.
  split; [reflexivity|]. split; [reflexivity|].
  destruct (existsb _ l) eqn:E.
  - split; [|reflexivity]. intros _. apply existsb_exists in E. exact E.
  - split; [discriminate|]. intros (s & Hin & Hc).
    assert (existsb (fun s => Pil.covers s x y) l = true) by (apply existsb_exists; eauto).
    congruence.
Qed.

Lemma menu_icon_pixel_witness :
  exists img p,
    create_menu_bar_icon 16 = Ok img
    /\ Pil.getpixel (R := geometric) img 12 7 = Some p
    /\ p = white_ink.
Proof.
  destruct (is_ok_true (create_menu_bar_icon 16)) as [img Hicon]; [vm_compute; reflexivity|].
  assert (Hsome : is_Some (Pil.getpixel (R := geometric) img 12 7)).
  { apply getpixel_defined.
    apply create_menu_bar_icon_ops in Hicon as (shaft & width & vane & _ & _ & ->).
    simpl. lia. }
  destruct Hsome as [p Hp]. exists img, p. split; [exact Hicon|]. split; [exact Hp|].
  destruct (menu_icon_pixel 16 img 12 7 p Hicon Hp) as (_ & _ & Hwhite).
  apply Hwhite. exists (circle 12 7 1). split.
  - apply create_menu_bar_icon_ops in Hicon as (shaft & width & vane & _ & _ & ->).
    unfold shapes. cbn [Pil.ops omap shape_of]. right. right. left. reflexivity.
  - apply (Pil.ellipse_centre 12 7 1). lia.
Defined.

(** ** The menu-bar icon at a size that is not positive *)

Lemma create_menu_bar_icon_negative size :
  size < 0 -> create_menu_bar_icon size = Raise ValueError.
Proof.
  intros H. unfold create_menu_bar_icon, Pil.new_RGBA, Pil.check_size. simpl.
  destruct (Z.ltb_spec size 0); [reflexivity | lia].
Qed.

(** X3.  [create_menu_bar_icon] has no guard on its size either.  At size
    0 it returns an image without pixels, the shaft, the vane and the two
    dots drawn around the origin; at a negative size the imaging library
    refuses the size and the call ends in its [ValueError]. *)
Theorem menu_icon_not_positive {R : Pil.Rasteriser} (size : Z) :
  size <= 0 ->
  (size = 0
   /\ exists img, create_menu_bar_icon size = Ok img
        /\ Pil.size img = (0, 0)
        /\ length (Pil.ops img) = 4%nat
        /\ forall x y, Pil.getpixel img x y = None)
  \/ (size < 0 /\ create_menu_bar_icon size = Raise ValueError).
Proof.
  intros Hsize. destruct (Z.eq_dec size 0) as [->|Hne].
  - left. split; [reflexivity|].
    destruct (is_ok_true (create_menu_bar_icon 0)) as [img Hicon]; [vm_compute; reflexivity|].
    exists img. split; [exact Hicon|].
    apply create_menu_bar_icon_ops in Hicon as (shaft & width & vane & _ & _ & ->).
    split; [reflexivity|]. split; [reflexivity|].
    intros x y. destruct (Pil.getpixel _ x y) eqn:E; [|reflexivity].
    assert (Hsome : is_Some (Pil.getpixel
                               (Pil.mkImage (0, 0) transparent
                                  (Pil.Draw (Pil.Line shaft width) white_ink
                                   :: Pil.Draw (Pil.Polygon vane) white_ink
                                   :: map (fun s => Pil.Draw s white_ink) (menu_dots 0)))
                               x y)) by (rewrite E; eauto).
    apply getpixel_defined in Hsome. simpl in Hsome. lia.
  - right. split; [lia|]. apply create_menu_bar_icon_negative. lia.
Qed.

Lemma menu_icon_not_positive_witness :
  (exists img, create_menu_bar_icon 0 = Ok img /\ Pil.size img = (0, 0))
  /\ create_menu_bar_icon (-1) = Raise ValueError.
Proof.
  split.
  - destruct (menu_icon_not_positive (R := geometric) 0)
      as [(_ & img & H & Hsz & _)|[H _]]; [lia | | lia].
    exists img. split; assumption.
  - destruct (menu_icon_not_positive (R := geometric) (-1))
      as [[H _]|[_ H]]; [lia | discriminate | exact H].
Defined.

(** ** The gradient, row after row *)

Lemma exact_lerp_bounds e0 e1 size y :
  e0 <= e1 -> 0 <= y < size -> e0 <= exact_lerp e0 e1 size y /\
  (e0 < e1 -> exact_lerp e0 e1 size y < e1).
Proof.
  intros He Hy. unfold exact_lerp. split.
  - apply Z.div_le_lower_bound; nia.
  - intros Hlt. apply Z.div_lt_upper_bound; nia.
Qed.

Lemma exact_lerp_mono e0 e1 size y y' :
  e0 <= e1 -> 0 < size -> y <= y' -> exact_lerp e0 e1 size y <= exact_lerp e0 e1 size y'.
Proof.
  intros He Hs Hy. unfold exact_lerp. apply Z.div_le_mono; nia.
Qed.

(** X4.  At the sizes of the list the gradient never turns back and
    never reaches its second endpoint: every row of the image is drawn
    opaque, each of its channels at least that of (76, 84, 200) and less
    than that of (110, 115, 230), and no channel of a row below is less. *)
Theorem gradient_rises :
  Forall (fun size =>
    exists img, create_icon size = Ok img /\
      forall y, 0 <= y < size ->
        exists r g b,
          Pil.ops img !! Z.to_nat y = Some (gradient_line size y (r, g, b, 255))
          /\ (76 <= r < 110 /\ 84 <= g < 115 /\ 200 <= b < 230)
          /\ forall y' r' g' b' a',
               y <= y' < size ->
               Pil.ops img !! Z.to_nat y' = Some (gradient_line size y' (r', g', b', a')) ->
               r <= r' /\ g <= g' /\ b <= b' /\ a' = 255) sizes.
Proof.
  apply Forall_forall. intros size Hin. apply list_elem_of_In in Hin.
  destruct (icon_checked size Hin) as (img & Hicon & _ & Hcheck & _).
  pose proof (c2_check_sound size img Hicon Hcheck) as Hexact.
  exists img. split; [exact Hicon|].
  apply create_icon_ops in Hicon
    as (cs & f & shaft & width & vane & bs & tri & _ & Hcs & _ & _ & _ & _ & _ & ->).
  cbn [Pil.ops]. intros y Hy.
  destruct (icon_row size cs shaft width vane bs tri y Hcs Hy) as (c & Hc & Hrow).
  rewrite Hexact in Hc by exact Hy. injection Hc as <-.
  eexists _, _, _. split; [exact Hrow|].
  pose proof (exact_lerp_bounds 76 110 size y).
  pose proof (exact_lerp_bounds 84 115 size y).
  pose proof (exact_lerp_bounds 200 230 size y).
  split; [lia|].
  intros y' r' g' b' a' Hy' Hrow'.
  destruct (icon_row size cs shaft width vane bs tri y' Hcs ltac:(lia)) as (c' & Hc' & E').
  rewrite Hexact in Hc' by lia. injection Hc' as <-.
  rewrite Hrow' in E'. unfold gradient_line, exact_color in E'.
  injection E' as -> -> -> ->.
  pose proof (exact_lerp_mono 76 110 size y y').
  pose proof (exact_lerp_mono 84 115 size y y').
  pose proof (exact_lerp_mono 200 230 size y y').
  repeat split; lia.
Qed.

(** X4, a use of the theorem: the first and the last row at size 16. *)
Lemma gradient_rises_witness :
  exists img r g b r' g' b',
    create_icon 16 = Ok img
    /\ Pil.ops img !! 0%nat = Some (gradient_line 16 0 (r, g, b, 255))
    /\ Pil.ops img !! 15%nat = Some (gradient_line 16 15 (r', g', b', 255))
    /\ r <= r' /\ g <= g' /\ b <= b'.
Proof.
  pose proof gradient_rises as H. rewrite Forall_forall in H.
  destruct (H 16 ltac:(apply list_elem_of_In; left; reflexivity)) as (img & Hicon & Hrows).
  destruct (Hrows 0 ltac:(lia)) as (r & g & b & H0 & _ & Hbelow).
  destruct (Hrows 15 ltac:(lia)) as (r' & g' & b' & H15 & _ & _).
  exists img, r, g, b, r', g', b'. split; [exact Hicon|].
  split; [exact H0|]. split; [exact H15|].
  destruct (Hbelow 15 r' g' b' 255 ltac:(lia) H15) as (? & ? & ? & _). auto.
Defined.

(** ** The driver

    The renderers are rendered once, above; from here on a call of one is
    a name for its result, never evaluated again. *)

Opaque create_icon create_menu_bar_icon.

Lemma writes_app l1 l2 m : writes (l1 ++ l2) m = writes l2 (writes l1 m).
Proof. apply foldl_app. Qed.

Lemma writes_lookup l m k :
  writes l m !! k = match last_write k l with Some v => Some v | None => m !! k end.
Proof.
  revert m. induction l as [|[k' v] l IH]; intros m; [reflexivity|].
  change (writes ((k', v) :: l) m) with (writes l (<[k' := v]> m)).
  rewrite IH. simpl. destruct (last_write k l); [reflexivity|].
  destruct (String.eqb_spec k' k) as [->|Hne].
  - apply lookup_insert_eq.
  - apply lookup_insert_ne. exact Hne.
Qed.

Lemma writes_idemp l m : writes l (writes l m) = writes l m.
Proof.
  apply map_eq. intros k. rewrite !writes_lookup.
  destruct (last_write k l); reflexivity.
Qed.

Lemma dom_writes l m : dom (writes l m) = list_to_set l.*1 ∪ dom m.
Proof.
  revert m. induction l as [|[k v] l IH]; intros m.
  - simpl. symmetry. apply union_empty_l_L.
  - change (writes ((k, v) :: l) m) with (writes l (<[k := v]> m)).
    rewrite IH, dom_insert_L. simpl.
    rewrite !(assoc_L (∪)), (comm_L (∪) (list_to_set _)). reflexivity.
Qed.

Lemma entries_writes d l m :
  entries d (writes l m)
  = list_to_set (filter (fun p => dirname p = d) l.*1) ∪ entries d m.
Proof.
  unfold entries. rewrite dom_writes. apply set_eq. intros x.
  rewrite elem_of_union, !elem_of_filter, elem_of_union, !elem_of_list_to_set,
    list_elem_of_filter. tauto.
Qed.

(** *** Every statement of a completed run *)

Lemma save_inv img f w w' :
  save img f w = Ok w' -> fs w' = writes [(f, File img)] (fs w).
Proof.
  unfold save. destruct (fs w !! dirname f) as [[|?]|]; try discriminate.
  destruct (fs w !! f) as [[|?]|]; try discriminate; intros [= <-]; reflexivity.
Qed.

Lemma mkdir_inv leaf a w w' :
  mkdir_exist_ok leaf a w = Ok w' -> fs w' = <[a := Dir]> (fs w).
Proof.
  unfold mkdir_exist_ok. destruct (fs w !! a) as [[|?]|] eqn:E; try discriminate.
  - intros [= <-]. symmetry. apply insert_id, E.
  - intros [= <-]. reflexivity.
Qed.

Lemma makedirs_inv p w w' : makedirs p w = Ok w' -> fs w' = writes (dirs p) (fs w).
Proof.
  unfold makedirs, dirs. generalize (ancestors p) as l.
  intros l. revert w. induction l as [|a l IH]; intros w H; simpl in H.
  - injection H as <-. reflexivity.
  - apply bind_ok in H as (w1 & H1 & H). apply mkdir_inv in H1. apply IH in H.
    rewrite H, H1. reflexivity.
Qed.

Lemma app_icon_inv size w w' :
  app_icon size w = Ok w' ->
  exists l, Forall2 (saved create_icon) (app_writes size) l /\ fs w' = writes l (fs w).
Proof.
  unfold app_icon, app_writes. intros H.
  apply bind_ok in H as (icon & Hicon & H).
  apply bind_ok in H as (w1 & H1 & H). apply save_inv in H1. cbn [fs print] in H1.
  destruct (size <=? 512).
  - apply bind_ok in H as (icon2 & Hicon2 & H).
    apply bind_ok in H as (w2 & H2 & H). apply save_inv in H2. cbn [fs print] in H2.
    injection H as <-. cbn [fs print].
    exists [(icon_file size, File icon); (icon_file_2x size, File icon2)].
    split; [|rewrite H2, H1; reflexivity].
    repeat constructor; eexists; (split; [eassumption | reflexivity]).
  - injection H as <-. exists [(icon_file size, File icon)].
    split; [|exact H1]. repeat constructor. eexists; (split; [eassumption | reflexivity]).
Qed.

Lemma app_icons_inv l w w' :
  for_ l app_icon w = Ok w' ->
  exists log, Forall2 (saved create_icon) (flat_map app_writes l) log
    /\ fs w' = writes log (fs w).
Proof.
  revert w. induction l as [|size l IH]; intros w H; simpl in H.
  - injection H as <-. exists []. split; [constructor | reflexivity].
  - apply bind_ok in H as (w1 & H1 & H).
    apply app_icon_inv in H1 as (l1 & Hl1 & E1). apply IH in H as (l2 & Hl2 & E2).
    exists (l1 ++ l2). split; [apply Forall2_app; assumption|].
    rewrite writes_app, E2, E1. reflexivity.
Qed.


(** A completed run has made sure of the two directories and saved the
    sixteen images, in this order, and has done nothing else to the file
    system. *)
Lemma main_inv w w' :
  main w = Ok w' ->
  exists la lm,
    Forall2 (saved create_icon) app_outputs la
    /\ Forall2 (saved create_menu_bar_icon) menu_outputs lm
    /\ fs w' = writes (dirs icon_dir ++ la ++ dirs menu_iconset_dir ++ lm) (fs w).
Proof.
  unfold main. intros H.
  apply bind_ok in H as (w1 & H1 & H). apply makedirs_inv in H1. cbn [fs print] in H1.
  apply bind_ok in H as (w2 & H2 & H). apply app_icons_inv in H2 as (la & Hla & E2).
  apply bind_ok in H as (w3 & H3 & H). apply makedirs_inv in H3. cbn [fs print] in H3.
  apply bind_ok in H as (i1 & Hi1 & H).
  apply bind_ok in H as (w4 & H4 & H). apply save_inv in H4.
  apply bind_ok in H as (i2 & Hi2 & H).
  apply bind_ok in H as (w5 & H5 & H). apply save_inv in H5.
  apply bind_ok in H as (i3 & Hi3 & H).
  apply bind_ok in H as (w6 & H6 & H). apply save_inv in H6.
  apply bind_ok in H as (l1 & Hl1 & H).
  apply bind_ok in H as (l2 & Hl2 & H).
  injection H as <-. cbn [fs print].
  exists la, [((menu_iconset_dir ++ "/menubar_16.png")%string, File i1);
              ((menu_iconset_dir ++ "/menubar_16@2x.png")%string, File i2);
              ((menu_iconset_dir ++ "/menubar_16@3x.png")%string, File i3)].
  split; [exact Hla|]. split.
  - repeat constructor; eexists; (split; [eassumption | reflexivity]).
  - rewrite !writes_app, <- H1, <- E2, <- H3.
    rewrite H6, H5, H4. reflexivity.
Qed.

Lemma saved_functional render os l l' :
  Forall2 (saved render) os l -> Forall2 (saved render) os l' -> l = l'.
Proof.
  intros H. revert l'. induction H as [|o kv os l (img & Himg & ->) _ IH]; intros l' H'.
  - apply Forall2_nil_inv_l in H'. congruence.
  - apply Forall2_cons_inv_l in H' as (kv' & l'' & (img' & Himg' & ->) & H' & ->).
    rewrite Himg in Himg'. injection Himg' as <-. f_equal. apply IH, H'.
Qed.

Lemma saved_paths render os l : Forall2 (saved render) os l -> l.*1 = os.*1.
Proof.
  induction 1 as [|o kv os l (img & _ & ->) _ IH]; [reflexivity|].
  simpl. f_equal. exact IH.
Qed.

(** Only files are saved, and only at the paths of the outputs. *)
Lemma saved_last_write render os l k :
  Forall2 (saved render) os l ->
  (last_write k l = None /\ ~ In k os.*1)
  \/ (exists img, last_write k l = Some (File img) /\ In k os.*1).
Proof.
  induction 1 as [|o kv os l (img & _ & ->) _ IH]; [left; split; [reflexivity | intros []]|].
  simpl. destruct IH as [[-> Hnot]|(img' & -> & Hin)]; [|right; eauto].
  destruct (String.eqb_spec o.1 k) as [E|Hne]; [right; eauto|].
  left. split; [reflexivity|]. intros [E|Hin]; [exact (Hne E) | exact (Hnot Hin)].
Qed.

Ltac concretize H :=
  match type of H with
  | Forall2 _ ?os _ => let os' := eval vm_compute in os in change os with os' in H
  end;
  repeat (let img := fresh "img" in
          let Himg := fresh "Himg" in
          apply Forall2_cons_inv_l in H as (? & ? & (img & Himg & ->) & H & ->);
          cbn [fst snd] in Himg);
  apply Forall2_nil_inv_l in H as ->.

(** Two results of one call are one image.  The calls are compared as
    written, never evaluated. *)
Ltac same_images :=
  repeat match goal with
         | H1 : ?f ?n = Ok ?a, H2 : ?g ?m = Ok ?b |- _ =>
             constr_eq f g; constr_eq n m;
             assert (b = a) by (apply (inj Ok); rewrite <- H1; exact H2);
             subst b; clear H2
         end.

Ltac expand l :=
  let l' := eval vm_compute in l in change l with l'.

Ltac each_output :=
  repeat apply List.Forall_cons; [.. | apply List.Forall_nil]; cbn [fst snd].

Ltac held :=
  match goal with
  | H : ?f ?n = Ok ?i |- exists img, ?g ?m = Ok img /\ _ =>
      constr_eq f g; constr_eq n m;
      exists i; split; [exact H | vm_compute; reflexivity]
  end.

(** The log of a completed run: its paths, what it leaves at each, and that
    every completed run has the same. *)
Lemma main_log w w' :
  main w = Ok w' ->
  exists log,
    fs w' = writes log (fs w)
    /\ log.*1 = ancestors icon_dir ++ app_files ++ ancestors menu_iconset_dir ++ menu_files
    /\ Forall (fun o => exists img,
                 create_icon o.2 = Ok img /\ last_write o.1 log = Some (File img)) app_outputs
    /\ Forall (fun o => exists img,
                 create_menu_bar_icon o.2 = Ok img /\ last_write o.1 log = Some (File img))
              menu_outputs
    /\ Forall (fun d => last_write d log = Some Dir) output_dirs
    /\ forall v v', main v = Ok v' -> fs v' = writes log (fs v).
Proof.
  intros H. apply main_inv in H as (la & lm & Hla & Hlm & E).
  pose proof Hla as Hla'. pose proof Hlm as Hlm'.
  concretize Hla. concretize Hlm. same_images.
  eexists. split; [exact E|]. split; [|split; [|split; [|split]]].
  - vm_compute. reflexivity.
  - expand app_outputs. each_output. all: held.
  - expand menu_outputs. each_output. all: held.
  - expand output_dirs. each_output. all: vm_compute; reflexivity.
  - intros v v' Hv. apply main_inv in Hv as (la'' & lm'' & Hla'' & Hlm'' & ->).
    rewrite (saved_functional _ _ _ _ Hla'' Hla'), (saved_functional _ _ _ _ Hlm'' Hlm').
    reflexivity.
Qed.

(** *** When a run completes *)

Lemma save_runs img f w :
  fs w !! dirname f = Some Dir -> fs w !! f <> Some Dir -> exists w', save img f w = Ok w'.
Proof.
  unfold save. intros -> H. destruct (fs w !! f) as [[|?]|]; [contradiction | eauto | eauto].
Qed.

Lemma mkdirs_run leaf l w :
  Forall (fun a => forall img, fs w !! a <> Some (File img)) l ->
  exists w', for_ l (mkdir_exist_ok leaf) w = Ok w'.
Proof.
  revert w. induction l as [|a l IH]; intros w H; [simpl; eauto|].
  apply List.Forall_cons_iff in H as [Ha H]. simpl.
  assert (exists w1, mkdir_exist_ok leaf a w = Ok w1) as [w1 H1].
  { unfold mkdir_exist_ok. destruct (fs w !! a) as [[|img]|] eqn:E; eauto.
    destruct (Ha img). reflexivity. }
  rewrite H1. cbn [bind]. apply IH. apply mkdir_inv in H1.
  eapply List.Forall_impl; [|exact H]. intros a' Ha' img. rewrite H1.
  destruct (decide (a = a')) as [->|Hne].
  - rewrite lookup_insert_eq. discriminate.
  - rewrite lookup_insert_ne by exact Hne. apply Ha'.
Qed.

Lemma sizes_paths size :
  In size sizes ->
  dirname (icon_file size) = icon_dir /\ dirname (icon_file_2x size) = icon_dir
  /\ ((size <=? 512) = true -> In (size * 2) sizes).
Proof.
  unfold sizes. simpl. intros H.
  repeat (destruct H as [<-|H]; [repeat split; try (vm_compute; reflexivity);
                                 intros _; vm_compute; tauto|]).
  destruct H as [<-|[]].
  split; [vm_compute; reflexivity|]. split; [vm_compute; reflexivity|].
  intros H. vm_compute in H. discriminate H.
Qed.

(** A write of files only leaves a directory a directory and makes none. *)
Lemma saved_keeps render os l m k :
  Forall2 (saved render) os l ->
  (m !! k <> Some Dir -> writes l m !! k <> Some Dir)
  /\ (~ In k os.*1 -> writes l m !! k = m !! k).
Proof.
  intros H. rewrite writes_lookup.
  destruct (saved_last_write render os l k H) as [[-> Hnot]|(img & -> & Hin)].
  - split; auto.
  - split; [discriminate|]. intros Hnot. contradiction.
Qed.

Lemma not_dir_at (m : gmap string node) d (os : list (string * Z)) :
  m !! d = Some Dir -> Forall (fun o => m !! o.1 <> Some Dir) os -> ~ In d os.*1.
Proof.
  intros Hd H Hin. apply in_map_iff in Hin as (o & <- & Hin).
  rewrite List.Forall_forall in H. exact (H o Hin Hd).
Qed.

Lemma app_icon_runs size w :
  In size sizes ->
  fs w !! icon_dir = Some Dir ->
  Forall (fun o => fs w !! o.1 <> Some Dir) (app_writes size) ->
  exists w', app_icon size w = Ok w'.
Proof.
  intros Hin Hdir Hfiles.
  destruct (sizes_paths size Hin) as (D1 & D2 & H2x).
  destruct (icon_checked size Hin) as (img & Hicon & _).
  pose proof (not_dir_at _ _ _ Hdir Hfiles) as Hnot.
  unfold app_icon. rewrite Hicon. cbn [bind].
  unfold app_writes in Hfiles, Hnot.
  apply List.Forall_cons_iff in Hfiles as [Hf1 Hf2]. cbn [fst] in Hf1.
  destruct (save_runs img (icon_file size)
              (print ("Creating icon " ++ str size ++ "x" ++ str size ++ "...") w))
    as [w1 H1]; [cbn [fs print]; rewrite D1; exact Hdir | exact Hf1 |].
  pose proof (save_inv _ _ _ _ H1) as E1. cbn [fs print] in E1.
  unfold icon_file in H1 at 1. rewrite H1. cbn [bind].
  destruct (size <=? 512); [|eauto].
  destruct (icon_checked (size * 2) (H2x eq_refl)) as (img2 & Hicon2 & _).
  rewrite Hicon2. cbn [bind].
  apply List.Forall_cons_iff in Hf2 as [Hf2 _]. cbn [fst] in Hf2.
  assert (Hne : icon_file size <> icon_dir) by (intros E; apply Hnot; left; exact E).
  match goal with
  | |- exists w', bind (save img2 ?f ?w0) _ = _ =>
      destruct (save_runs img2 (icon_file_2x size) w0) as [w2 H2]
  end.
  - cbn [fs print]. rewrite E1, D2. unfold writes. cbn [foldl fst snd].
    rewrite lookup_insert_ne by exact Hne. exact Hdir.
  - cbn [fs print]. rewrite E1. unfold writes. cbn [foldl fst snd].
    destruct (decide (icon_file size = icon_file_2x size)) as [E|Hd].
    + rewrite E, lookup_insert_eq. discriminate.
    + rewrite lookup_insert_ne by exact Hd. exact Hf2.
  - unfold icon_file_2x in H2 at 1. rewrite H2. cbn [bind]. eauto.
Qed.

Lemma app_icons_run l w :
  (forall size, In size l -> In size sizes) ->
  fs w !! icon_dir = Some Dir ->
  Forall (fun o => fs w !! o.1 <> Some Dir) (flat_map app_writes l) ->
  exists w', for_ l app_icon w = Ok w'.
Proof.
  revert w. induction l as [|size l IH]; intros w Hl Hdir Hfiles; [simpl; eauto|].
  cbn [flat_map] in Hfiles. apply List.Forall_app in Hfiles as [Hf1 Hf2].
  destruct (app_icon_runs size w) as [w1 H1]; [apply Hl; left; reflexivity | assumption..|].
  simpl. rewrite H1. cbn [bind].
  apply app_icon_inv in H1 as (l1 & Hl1 & E1).
  apply IH.
  - intros s Hs. apply Hl. right. exact Hs.
  - rewrite E1, (proj2 (saved_keeps _ _ _ _ icon_dir Hl1)); [exact Hdir|].
    apply (not_dir_at _ _ _ Hdir Hf1).
  - eapply List.Forall_impl; [|exact Hf2]. intros o Ho. rewrite E1.
    apply (saved_keeps _ _ _ _ _ Hl1), Ho.
Qed.

Lemma menu_icon_runs size :
  In size [16; 32; 48] -> exists img, create_menu_bar_icon size = Ok img.
Proof.
  intros Hin. apply is_ok_true.
  pose proof menu_icons_render as H. rewrite forallb_forall in H. exact (H size Hin).
Qed.

Ltac eval_last_write :=
  lazymatch goal with
  | |- context [last_write ?k ?l] =>
      let v := eval vm_compute in (last_write k l) in
      let Hv := fresh in
      assert (Hv : last_write k l = v) by (vm_compute; reflexivity);
      rewrite Hv; clear Hv
  end.

(** A run completes in every file system that is ready for it. *)
Lemma main_runs w : ready (fs w) -> exists w', main w = Ok w'.
Proof.
  intros [Hd Hf]. apply List.Forall_app in Hd as [Hd1 Hd2].
  apply List.Forall_app in Hf as [Hf1 Hf2].
  unfold main.
  destruct (mkdirs_run icon_dir (ancestors icon_dir)
              (print ("Creating icons in: " ++ icon_dir) w)) as [w1 H1]; [exact Hd1|].
  pose proof (makedirs_inv icon_dir _ _ H1) as E1. cbn [fs print] in E1.
  unfold makedirs at 1. rewrite H1. cbn [bind].
  destruct (app_icons_run sizes w1) as [w2 H2].
  { auto. }
  { rewrite E1, writes_lookup. eval_last_write. reflexivity. }
  { rewrite List.Forall_forall in Hf1. apply List.Forall_forall. intros o Ho.
    rewrite E1, writes_lookup.
    assert (Hnone : last_write o.1 (dirs icon_dir) = None).
    { revert o Ho. apply List.Forall_forall. expand app_outputs.
      each_output. all: vm_compute; reflexivity. }
    rewrite Hnone. apply Hf1. apply in_map, Ho. }
  rewrite H2. cbn [bind].
  apply app_icons_inv in H2 as (la & Hla & E2). rewrite E1 in E2.
  rewrite <- writes_app in E2. fold app_outputs in Hla. concretize Hla.
  rewrite List.Forall_forall in Hd2, Hf2.
  match goal with
  | |- exists w', bind (makedirs _ ?w0) _ = _ =>
      destruct (mkdirs_run menu_iconset_dir (ancestors menu_iconset_dir) w0) as [w3 H3]
  end.
  { cbn [fs print]. apply List.Forall_forall. intros a Ha img'.
    rewrite E2, writes_lookup.
    vm_compute in Ha.
    destruct Ha as [<-|[<-|[<-|[]]]]; eval_last_write; cbv beta iota;
      [discriminate | discriminate | apply Hd2; vm_compute; tauto]. }
  pose proof (makedirs_inv menu_iconset_dir _ _ H3) as E3. cbn [fs print] in E3.
  rewrite E2, <- writes_app in E3.
  unfold makedirs at 1. rewrite H3. cbn [bind].
  destruct (menu_icon_runs 16) as [m1 Hm1]; [simpl; tauto|]. rewrite Hm1. cbn [bind].
  match goal with
  | |- exists w', bind (save ?i ?f ?w0) _ = _ => destruct (save_runs i f w0) as [w4 H4]
  end.
  { rewrite E3, writes_lookup. eval_last_write. reflexivity. }
  { rewrite E3, writes_lookup. eval_last_write. apply Hf2. vm_compute. tauto. }
  rewrite H4. cbn [bind]. apply save_inv in H4. rewrite E3, <- writes_app in H4.
  destruct (menu_icon_runs 32) as [m2 Hm2]; [simpl; tauto|]. rewrite Hm2. cbn [bind].
  match goal with
  | |- exists w', bind (save ?i ?f ?w0) _ = _ => destruct (save_runs i f w0) as [w5 H5]
  end.
  { rewrite H4, writes_lookup. eval_last_write. reflexivity. }
  { rewrite H4, writes_lookup. eval_last_write. apply Hf2. vm_compute. tauto. }
  rewrite H5. cbn [bind]. apply save_inv in H5. rewrite H4, <- writes_app in H5.
  destruct (menu_icon_runs 48) as [m3 Hm3]; [simpl; tauto|]. rewrite Hm3. cbn [bind].
  match goal with
  | |- exists w', bind (save ?i ?f ?w0) _ = _ => destruct (save_runs i f w0) as [w6 H6]
  end.
  { rewrite H5, writes_lookup. eval_last_write. reflexivity. }
  { rewrite H5, writes_lookup. eval_last_write. apply Hf2. vm_compute. tauto. }
  rewrite H6. cbn [bind]. apply save_inv in H6. rewrite H5, <- writes_app in H6.
  unfold listdir. cbn [fs print]. rewrite H6, !writes_lookup.
  eval_last_write. cbv beta iota. cbn [bind]. eval_last_write. cbv beta iota. cbn [bind].
  eauto.
Qed.

Lemma empty_ready : ready (fs empty_world).
Proof.
  split; apply List.Forall_forall; intros p _; simpl; rewrite lookup_empty; discriminate.
Qed.

Lemma last_write_notin k l : ~ In k l.*1 -> last_write k l = None.
Proof.
  induction l as [|[k' v] l IH]; [reflexivity|]. simpl. intros H.
  rewrite IH by tauto. destruct (String.eqb_spec k' k); [tauto | reflexivity].
Qed.

(** What a completed run leaves at the paths of its outputs. *)
Lemma main_holds w w' :
  main w = Ok w' ->
  Forall (fun o => holds (fs w') o.1 (create_icon o.2)) app_outputs
  /\ Forall (fun o => holds (fs w') o.1 (create_menu_bar_icon o.2)) menu_outputs
  /\ Forall (fun d => fs w' !! d = Some Dir) output_dirs.
Proof.
  intros H. apply main_log in H as (log & -> & _ & Ha & Hm & Hd & _).
  split; [|split].
  - eapply List.Forall_impl; [|exact Ha]. intros o (img & Himg & Hlog).
    exists img. split; [exact Himg|]. rewrite writes_lookup, Hlog. reflexivity.
  - eapply List.Forall_impl; [|exact Hm]. intros o (img & Himg & Hlog).
    exists img. split; [exact Himg|]. rewrite writes_lookup, Hlog. reflexivity.
  - eapply List.Forall_impl; [|exact Hd]. intros d Hlog.
    rewrite writes_lookup, Hlog. reflexivity.
Qed.

Lemma app_outputs_sizes (P : string * Z -> Prop) :
  Forall P app_outputs ->
  Forall (fun size => P (icon_file size, size)
                      /\ (size <= 512 -> P (icon_file_2x size, size * 2))) sizes.
Proof.
  unfold app_outputs. generalize sizes as l.
  induction l as [|size l IH]; intros H; [constructor|].
  cbn [flat_map] in H. apply List.Forall_app in H as [H1 H2].
  constructor; [|apply IH, H2].
  unfold app_writes in H1. apply List.Forall_cons_iff in H1 as [H0 H1].
  split; [exact H0|]. intros Hle.
  destruct (Z.leb_spec size 512); [|lia].
  apply List.Forall_cons_iff in H1 as [H1 _]. exact H1.
Qed.

(** X5.  After a completed run, for every size N of the list the file
    icon_NxN.png holds the image that [create_icon N] returns and, up to
    512, the file icon_NxN@2x.png the image that [create_icon (N * 2)]
    returns; the three files of the menu-bar icon hold what
    [create_menu_bar_icon] returns at 16, 32 and 48. *)
Theorem driver_saves_renderings (w w' : world) :
  main w = Ok w' ->
  Forall (fun size =>
            holds (fs w') (icon_file size) (create_icon size)
            /\ (size <= 512 -> holds (fs w') (icon_file_2x size) (create_icon (size * 2))))
         sizes
  /\ holds (fs w') (menu_iconset_dir ++ "/menubar_16.png") (create_menu_bar_icon 16)
  /\ holds (fs w') (menu_iconset_dir ++ "/menubar_16@2x.png") (create_menu_bar_icon 32)
  /\ holds (fs w') (menu_iconset_dir ++ "/menubar_16@3x.png") (create_menu_bar_icon 48).
Proof.
  intros H. apply main_holds in H as (Ha & Hm & _). split.
  - exact (app_outputs_sizes _ Ha).
  - unfold menu_outputs in Hm.
    apply List.Forall_cons_iff in Hm as [H1 Hm].
    apply List.Forall_cons_iff in Hm as [H2 Hm].
    apply List.Forall_cons_iff in Hm as [H3 _].
    split; [exact H1|]. split; [exact H2 | exact H3].
Qed.

Lemma main_empty : exists w', main empty_world = Ok w'.
Proof. apply main_runs, empty_ready. Qed.

Lemma driver_saves_renderings_witness :
  exists w', main empty_world = Ok w'
    /\ holds (fs w') (icon_file 16) (create_icon 16)
    /\ holds (fs w') (icon_file_2x 16) (create_icon 32).
Proof.
  destruct main_empty as [w' H]. exists w'. split; [exact H|].
  destruct (driver_saves_renderings empty_world w' H) as [Hs _].
  apply List.Forall_cons_iff in Hs as [[H1 H2] _].
  split; [exact H1 | apply H2; lia].
Defined.

(** *** What a run leaves alone *)

Lemma paths_listed : NoDup app_files /\ NoDup menu_files
  /\ filter (fun p => dirname p = icon_dir)
       (ancestors icon_dir ++ app_files ++ ancestors menu_iconset_dir ++ menu_files)
     = app_files
  /\ filter (fun p => dirname p = menu_iconset_dir)
       (ancestors icon_dir ++ app_files ++ ancestors menu_iconset_dir ++ menu_files)
     = menu_files
  /\ length app_files = 13%nat /\ length menu_files = 3%nat.
Proof.
  split; [exact (bool_decide_unpack (NoDup app_files) ltac:(vm_compute; exact I))|].
  split; [exact (bool_decide_unpack (NoDup menu_files) ltac:(vm_compute; exact I))|].
  repeat split; vm_compute; reflexivity.
Qed.

Lemma listdir_entries d w :
  fs w !! d = Some Dir ->
  exists l, listdir d w = Ok l /\ l ≡ₚ elements (entries d (fs w))
            /\ length l = size (entries d (fs w)).
Proof.
  intros H. unfold listdir. rewrite H. eexists. split; [reflexivity|]. split; reflexivity.
Qed.

Lemma size_with_listed (l : list string) (X : gset string) :
  NoDup l -> size (list_to_set l ∪ X) = (length l + size (X ∖ list_to_set l))%nat.
Proof.
  intros H. rewrite size_union_alt, size_list_to_set by exact H. reflexivity.
Qed.

(** The entries of the two directories after a completed run, and how
    many they are. *)
Lemma main_entries w w' :
  main w = Ok w' ->
  entries icon_dir (fs w') = list_to_set app_files ∪ entries icon_dir (fs w)
  /\ entries menu_iconset_dir (fs w')
     = list_to_set menu_files ∪ entries menu_iconset_dir (fs w)
  /\ size (entries icon_dir (fs w'))
     = (13 + size (entries icon_dir (fs w) ∖ list_to_set app_files))%nat
  /\ size (entries menu_iconset_dir (fs w'))
     = (3 + size (entries menu_iconset_dir (fs w) ∖ list_to_set menu_files))%nat.
Proof.
  intros H. apply main_log in H as (log & E & Hpaths & _).
  destruct paths_listed as (Napp & Nmenu & Fapp & Fmenu & Lapp & Lmenu).
  assert (Eapp : entries icon_dir (fs w') = list_to_set app_files ∪ entries icon_dir (fs w)).
  { rewrite E, entries_writes, Hpaths, Fapp. reflexivity. }
  assert (Emenu : entries menu_iconset_dir (fs w')
                  = list_to_set menu_files ∪ entries menu_iconset_dir (fs w)).
  { rewrite E, entries_writes, Hpaths, Fmenu. reflexivity. }
  split; [exact Eapp|]. split; [exact Emenu|]. split.
  - rewrite Eapp, size_with_listed, Lapp by exact Napp. reflexivity.
  - rewrite Emenu, size_with_listed, Lmenu by exact Nmenu. reflexivity.
Qed.

Lemma entries_empty d : entries d (fs empty_world) = ∅.
Proof. unfold entries. simpl. rewrite dom_empty_L. apply filter_empty_L. apply _. Qed.

(** X6.  A completed run leaves every path but those of its two
    directories, of the directories above them and of its sixteen files as
    it was: [os.makedirs(..., exist_ok=True)] keeps a directory that is
    there with all it holds.  So the icon directory holds the thirteen files
    and whatever else it held before, and [os.listdir] returns 13 names
    more than the entries it held under other names; likewise the menu-bar
    directory with its three files. *)
Theorem driver_keeps_the_rest (w w' : world) :
  main w = Ok w' ->
  (forall p, ~ In p (output_dirs ++ app_files ++ menu_files) -> fs w' !! p = fs w !! p)
  /\ entries icon_dir (fs w') = list_to_set app_files ∪ entries icon_dir (fs w)
  /\ entries menu_iconset_dir (fs w')
     = list_to_set menu_files ∪ entries menu_iconset_dir (fs w)
  /\ (exists l, listdir icon_dir w' = Ok l
        /\ length l = (13 + size (entries icon_dir (fs w) ∖ list_to_set app_files))%nat)
  /\ (exists l, listdir menu_iconset_dir w' = Ok l
        /\ length l
           = (3 + size (entries menu_iconset_dir (fs w) ∖ list_to_set menu_files))%nat).
Proof.
  intros H. pose proof (main_holds w w' H) as (_ & _ & Hdirs).
  pose proof (main_entries w w' H) as (Eapp & Emenu & Sapp & Smenu).
  apply main_log in H as (log & E & Hpaths & _).
  rewrite List.Forall_forall in Hdirs.
  split; [|split; [exact Eapp|split; [exact Emenu|split]]].
  - intros p Hp. rewrite E, writes_lookup, last_write_notin; [reflexivity|].
    rewrite Hpaths. intros Hin. apply Hp. unfold output_dirs.
    rewrite !in_app_iff in *. tauto.
  - destruct (listdir_entries icon_dir w') as (l & Hl & _ & Hlen).
    { apply Hdirs. unfold output_dirs. apply in_app_iff. left. vm_compute. tauto. }
    exists l. split; [exact Hl|]. rewrite Hlen. exact Sapp.
  - destruct (listdir_entries menu_iconset_dir w') as (l & Hl & _ & Hlen).
    { apply Hdirs. unfold output_dirs. apply in_app_iff. right. vm_compute. tauto. }
    exists l. split; [exact Hl|]. rewrite Hlen. exact Smenu.
Qed.

(** X6, a use of the theorem: in the empty file system the two listings
    have 13 and 3 names. *)
Lemma driver_keeps_the_rest_witness :
  exists w' la lm,
    main empty_world = Ok w'
    /\ listdir icon_dir w' = Ok la /\ length la = 13%nat
    /\ listdir menu_iconset_dir w' = Ok lm /\ length lm = 3%nat.
Proof.
  destruct main_empty as [w' H].
  destruct (driver_keeps_the_rest empty_world w' H)
    as (_ & _ & _ & (la & Hla & Ea) & (lm & Hlm & Em)).
  exists w', la, lm. split; [exact H|].
  rewrite entries_empty, empty_difference_L, size_empty in Ea, Em.
  split; [exact Hla|]. split; [exact Ea|]. split; [exact Hlm | exact Em].
Defined.

(** *** Running again *)

Lemma main_leaves_ready w w' : main w = Ok w' -> ready (fs w').
Proof.
  intros H. apply main_holds in H as (Ha & Hm & Hd). split.
  - eapply List.Forall_impl; [|exact Hd]. intros d -> img. discriminate.
  - unfold app_files, menu_files. apply List.Forall_app. split; apply Forall_fmap.
    + eapply List.Forall_impl; [|exact Ha]. intros o (img & _ & E).
      simpl. rewrite E. discriminate.
    + eapply List.Forall_impl; [|exact Hm]. intros o (img & _ & E).
      simpl. rewrite E. discriminate.
Qed.

(** X7.  After a completed run a second run completes too, and leaves
    the file system exactly as the first one left it: the directories are
    found and kept, every file is written again with the same image. *)
Theorem driver_again (w w' : world) :
  main w = Ok w' -> exists w'', main w' = Ok w'' /\ fs w'' = fs w'.
Proof.
  intros H. destruct (main_runs w' (main_leaves_ready w w' H)) as [w'' H'].
  exists w''. split; [exact H'|].
  apply main_log in H as (log & E & _ & _ & _ & _ & Hall).
  rewrite (Hall w' w'' H'), E. apply writes_idemp.
Qed.

Lemma driver_again_witness :
  exists w' w'', main empty_world = Ok w' /\ main w' = Ok w'' /\ fs w'' = fs w'.
Proof.
  destruct main_empty as [w' H].
  destruct (driver_again empty_world w' H) as (w'' & H' & E).
  exists w', w''. split; [exact H|]. split; [exact H' | exact E].
Defined.



(** X9.  What a completed run leaves at the paths of its directories and
    of its files does not depend on the file system it started in: two
    completed runs, from any two file systems, leave the same there. *)
Theorem driver_same_outputs (wa wa' wb wb' : world) :
  main wa = Ok wa' -> main wb = Ok wb' ->
  Forall (fun p => is_Some (fs wa' !! p) /\ fs wa' !! p = fs wb' !! p)
         (output_dirs ++ app_files ++ menu_files).
Proof.
  intros Ha Hb. apply main_log in Ha as (log & Ea & _ & Hfiles & Hmenu & Hdirs & Hall).
  rewrite (Hall wb wb' Hb), Ea. clear Hall Hb Ea.
  assert (Hsome : forall p v, last_write p log = Some v ->
            is_Some (writes log (fs wa) !! p)
            /\ writes log (fs wa) !! p = writes log (fs wb) !! p).
  { intros p v E. rewrite !writes_lookup, E. split; [eauto | reflexivity]. }
  apply List.Forall_app. split; [|apply List.Forall_app; split].
  - eapply List.Forall_impl; [|exact Hdirs]. intros d E. exact (Hsome _ _ E).
  - unfold app_files. apply Forall_fmap.
    eapply List.Forall_impl; [|exact Hfiles]. intros o (img & _ & E). exact (Hsome _ _ E).
  - unfold menu_files. apply Forall_fmap.
    eapply List.Forall_impl; [|exact Hmenu]. intros o (img & _ & E). exact (Hsome _ _ E).
Qed.

Lemma driver_same_outputs_witness :
  exists w' w'',
    main empty_world = Ok w' /\ main w' = Ok w''
    /\ Forall (fun p => is_Some (fs w' !! p) /\ fs w' !! p = fs w'' !! p)
              (output_dirs ++ app_files ++ menu_files).
Proof.
  destruct main_empty as [w' H].
  destruct (main_runs w' (main_leaves_ready _ _ H)) as [w'' H'].
  exists w', w''. split; [exact H|]. split; [exact H'|].
  exact (driver_same_outputs empty_world w' w' w'' H H').
Defined.

(** X10.  Up to 512, the file icon_NxN@2x.png and the file of the size
    N * 2, itself a size of the list, hold the same image after a
    completed run: six images are saved twice, under two names. *)
Theorem driver_twice_saved (w w' : world) :
  main w = Ok w' ->
  Forall (fun size =>
            size <= 512 ->
            In (size * 2) sizes
            /\ exists img, fs w' !! icon_file_2x size = Some (File img)
                           /\ fs w' !! icon_file (size * 2) = Some (File img)) sizes.
Proof.
  intros H. apply main_holds in H as (Ha & _ & _).
  apply app_outputs_sizes in Ha. rewrite List.Forall_forall in Ha.
  apply List.Forall_forall. intros size Hin Hle.
  destruct (sizes_paths size Hin) as (_ & _ & H2).
  assert (Hin2 : In (size * 2) sizes) by (apply H2, Z.leb_le, Hle).
  split; [exact Hin2|].
  destruct (Ha size Hin) as (_ & Hx). destruct (Hx Hle) as (img & Himg & E).
  destruct (Ha (size * 2) Hin2) as ((img' & Himg' & E') & _).
  cbn [fst snd] in *. rewrite Himg in Himg'. injection Himg' as <-.
  exists img. split; [exact E | exact E'].
Qed.

Lemma driver_twice_saved_witness :
  exists w' img,
    main empty_world = Ok w'
    /\ fs w' !! icon_file_2x 512 = Some (File img)
    /\ fs w' !! icon_file 1024 = Some (File img).
Proof.
  destruct main_empty as [w' H].
  pose proof (driver_twice_saved empty_world w' H) as Hs.
  rewrite List.Forall_forall in Hs.
  destruct (Hs 512) as (_ & img & E1 & E2); [vm_compute; tauto | lia |].
  exists w', img. split; [exact H|]. split; [exact E1 | exact E2].
Defined.

(** *** A file in the way *)




(** *** What a run prints *)






